(** * Blobscan: the indexer's blob-upload path (packages/api/src/router/indexer.ts)

    A shallow embedding of the [index] mutation of [indexerRouter] and of the
    helpers it calls, together with the properties of the blob storage core:
    key derivation, dedup of candidate blobs, the postage check, the fan-out of
    writes to Google Storage and Swarm, and the all-or-nothing outcome.

    Promises are modelled by the moment at which they settle and by what they
    settle with; the calls a run issues are collected in a trace.  *)

From Stdlib Require Import ZArith String Ascii List Lia Bool DecimalString.
From stdpp Require Import base decidable list strings gmap.

Import ListNotations.
Set Default Proof Using "Type".
Open Scope string_scope.
Open Scope list_scope.

(** ** Errors and promises *)

Module Promise.

(** What a rejected promise carries. [TRPCError] is the error [index]
    throws itself; [ClientError] stands for whatever a backend client
    (Google Storage, Bee, Prisma) rejects with. *)
Inductive Error : Type :=
| TRPCError (code message : string)
| ClientError (cause : string).

Inductive Result (A : Type) : Type :=
| Resolved (value : A)
| Rejected (reason : Error).
Arguments Resolved {A} value.
Arguments Rejected {A} reason.

(** A promise that has been issued: the tick at which it settles and its
    outcome. *)
Record Settled (A : Type) : Type := mkSettled {
  at_tick : nat;
  outcome : Result A
}.
Arguments mkSettled {A} at_tick outcome.
Arguments at_tick {A} s.
Arguments outcome {A} s.

Definition is_rejected {A} (p : Settled A) : bool :=
  match outcome p with Rejected _ => true | Resolved _ => false end.

(** The earliest rejection among [ps]; of two rejections at the same tick
    the one issued first (the leftmost) wins. *)
Fixpoint first_rejection {A} (ps : list (Settled A)) : option (nat * Error) :=
  match ps with
  | [] => None
  | p :: rest =>
      match outcome p, first_rejection rest with
      | Rejected e, Some (t, e') =>
          if (at_tick p <=? t)%nat then Some (at_tick p, e) else Some (t, e')
      | Rejected e, None => Some (at_tick p, e)
      | Resolved _, r => r
      end
  end.

(** The values of the promises that resolved, in the order of [ps]. *)
Fixpoint values {A} (ps : list (Settled A)) : list A :=
  match ps with
  | [] => []
  | p :: rest =>
      match outcome p with
      | Resolved v => v :: values rest
      | Rejected _ => values rest
      end
  end.

Definition last_tick {A} (ps : list (Settled A)) : nat :=
  fold_right (fun p t => Nat.max (at_tick p) t) 0%nat ps.

(** [Promise.all]: rejects with the reason of the first input to reject,
    and otherwise resolves, once every input has, with the values in the
    order of the inputs. *)
Definition all {A} (ps : list (Settled A)) : Settled (list A) :=
  match first_rejection ps with
  | Some (t, e) => mkSettled t (Rejected e)
  | None => mkSettled (last_tick ps) (Resolved (values ps))
  end.

(** [Promise.all] on a pair of promises of different types, as in
    [const [a, b] = await Promise.all([p, q])]. *)
Definition all2 {A B} (p : Settled A) (q : Settled B) : Settled (A * B) :=
  match outcome p, outcome q with
  | Resolved a, Resolved b =>
      mkSettled (Nat.max (at_tick p) (at_tick q)) (Resolved (a, b))
  | Rejected e, Resolved _ => mkSettled (at_tick p) (Rejected e)
  | Resolved _, Rejected e => mkSettled (at_tick q) (Rejected e)
  | Rejected e, Rejected e' =>
      if (at_tick p <=? at_tick q)%nat
      then mkSettled (at_tick p) (Rejected e)
      else mkSettled (at_tick q) (Rejected e')
  end.

(** [await p] followed by a synchronous continuation. *)
Definition then_ {A B} (p : Settled A) (f : A -> B) : Settled B :=
  match outcome p with
  | Resolved v => mkSettled (at_tick p) (Resolved (f v))
  | Rejected e => mkSettled (at_tick p) (Rejected e)
  end.

(** The reasons of all the inputs that reject. *)
Fixpoint rejections {A} (ps : list (Settled A)) : list Error :=
  match ps with
  | [] => []
  | p :: rest =>
      match outcome p with
      | Rejected e => e :: rejections rest
      | Resolved _ => rejections rest
      end
  end.

End Promise.
Export Promise.


(** ** The request, as [INDEX_REQUEST_DATA] validates it *)

Record BlockInput : Type := {
  block_number : Z;
  block_hash : string;
  block_timestamp : Z;
  block_slot : Z
}.

Record TransactionInput : Type := {
  tx_hash : string;
  tx_from : string;
  tx_to : option string;
  tx_blockNumber : Z
}.

Record BlobInput : Type := {
  versionedHash : string;
  commitment : string;
  data : string;
  txHash : string;
  index_in_tx : Z
}.

Record IndexRequest : Type := {
  block : BlockInput;
  transactions : list TransactionInput;
  blobs : list BlobInput
}.

(** ** What [index] hands to Prisma *)

(** One element of [uploadedBlobs]. *)
Record BlobRecord : Type := {
  rec_id : string;
  rec_versionedHash : string;
  rec_commitment : string;
  gsUri : string;
  swarmHash : string;
  rec_size : Z
}.

Record BlockData : Type := {
  bd_id : Z;
  bd_number : Z;
  bd_hash : string;
  bd_timestamp : Z;
  bd_slot : Z
}.

Record TransactionData : Type := {
  td_id : string;
  td_hash : string;
  td_fromId : string;
  td_toId : option string;
  td_blockNumber : Z;
  td_timestamp : Z
}.

Record BlobOnTransaction : Type := {
  bt_blobHash : string;
  bt_txHash : string;
  bt_index : Z
}.

(** What [getUniqueAddressesFromTxs] resolves with for one side. *)
Record AddressSplit : Type := {
  addr_new : list string;
  addr_existing : list string
}.

Record UniqueAddresses : Type := {
  uniqueFromAddresses : AddressSplit;
  uniqueToAddresses : AddressSplit
}.

(** The operations of [prisma.$transaction([...])], in the order of the
    array. *)
Record TransactionOps : Type := {
  createBlock : BlockData;
  updateAddresses : list string;
  createAddresses : list string;
  createTransactions : list TransactionData;
  createBlobsData : list BlobRecord;
  createBlobsOnTransaction : list BlobOnTransaction;
  updateOverallBlockStats : Z;
  updateOverallTxStats : Z * Z * Z;
  updateOverallBlobStats : Z * Z * Z
}.

(** ** The calls a run issues *)

Inductive Event : Type :=
| EvGetAllPostageBatch
| EvBulkContains (hashes : list string)
| EvSave (bucket file content : string)
| EvUploadFile (batchId content name : string) (pin : bool) (contentType : string)
| EvTransaction (ops : TransactionOps).

Definition is_write (e : Event) : bool :=
  match e with
  | EvSave _ _ _ | EvUploadFile _ _ _ _ _ => true
  | _ => false
  end.

Definition is_lookup (e : Event) : bool :=
  match e with EvBulkContains _ => true | _ => false end.

Definition is_transaction (e : Event) : bool :=
  match e with EvTransaction _ => true | _ => false end.

(** The blob records a trace persists. *)
Definition persisted (tr : list Event) : list BlobRecord :=
  flat_map (fun e => match e with EvTransaction ops => createBlobsData ops | _ => [] end) tr.

(** ** Runs: a trace and an outcome *)

Module Run.

Definition Run (A : Type) : Type := list Event * Result A.

Definition ret {A} (a : A) : Run A := ([], Resolved a).
Definition reject {A} (e : Error) : Run A := ([], Rejected e).

Definition bind {A B} (m : Run A) (k : A -> Run B) : Run B :=
  match m with
  | (tr, Resolved a) => let '(tr', r) := k a in (tr ++ tr', r)
  | (tr, Rejected e) => (tr, Rejected e)
  end.

(** A call that is awaited on the spot. *)
Definition call {A} (ev : Event) (r : Result A) : Run A := ([ev], r).

(** [await Promise.all(xs.map(f))]: every [f x] runs up to its first
    [await], so all of its calls are issued, in the order of [xs], before
    any of them settles. *)
Definition awaitAll {A B} (f : A -> list Event * Settled B) (xs : list A) : Run (list B) :=
  (flat_map (fun x => fst (f x)) xs,
   outcome (Promise.all (map (fun x => snd (f x)) xs))).

Definition trace {A} (m : Run A) : list Event := fst m.
Definition result {A} (m : Run A) : Result A := snd m.

End Run.
Export Run.

Notation "'let*' x ':=' m 'in' k" := (Run.bind m (fun x => k))
  (at level 10, x name, m at level 100, k at level 200).

(** ** ContentAddresser *)

Module ContentAddresser.

Definition take (n : nat) (s : string) : string := String.substring 0 n s.
Definition drop (n : nat) (s : string) : string :=
  String.substring n (String.length s - n) s.

(** The digits of a content hash: the hash without its [0x] marker. *)
Definition hexDigits (contentHash : string) : string :=
  if String.prefix "0x" contentHash then drop 2 contentHash else contentHash.

(** [depth] successive segments of [seglen] characters, and what is left. *)
Fixpoint splitSegments (seglen depth : nat) (s : string) : list string * string :=
  match depth with
  | O => ([], s)
  | S d =>
      let '(segs, rest) := splitSegments seglen d (drop seglen s) in
      (take seglen s :: segs, rest)
  end.

Section DeriveKey.

(** The normalisation of the chain identifier to its prefix. *)
Variable chainPrefix : Z -> string.
(** The configured segment length and depth. *)
Variables (seglen depth : nat).

(** Modelled from the spec: the addressing function of the storage core
    (the source's [GoogleStorage.storeBlob] path building and
    [buildGoogleStorageUri]) is not among the sources.  The chain prefix and
    the [depth] segments of the hash follow section 4.1; the last component
    follows the file name that the [storeBlob] test of GoogleStorage.test.ts
    records (lines 85-87),
    [70118930558/01/00/ea/0100eac8...e4c174.txt]: all the digits of the hash,
    followed by [.txt]. *)
Definition deriveKey (chainId : Z) (contentHash : string) : string :=
  let digits := hexDigits contentHash in
  String.concat "/"
    (chainPrefix chainId
       :: fst (splitSegments seglen depth digits) ++ [String.append digits ".txt"]).

(** Modelled from the spec: section 4.1 word for word, to be compared with
    [deriveKey]: the chain prefix, then [depth] segments of the hash, then
    the remainder of the hash, joined by [/]. *)
Definition deriveKeyWithRemainder (chainId : Z) (contentHash : string) : string :=
  let '(segs, rest) := splitSegments seglen depth (hexDigits contentHash) in
  String.concat "/" (chainPrefix chainId :: segs ++ [rest]).

End DeriveKey.

End ContentAddresser.
Export ContentAddresser.

(** ** DedupFilter *)

Module DedupFilter.

(** The lookup capability borrowed from the persistence layer. *)
Record KnownLookup : Type := {
  contains : string -> bool;
  bulkContains : list string -> gset string
}.

(** The capability of a store whose known hashes are [K]. *)
Definition lookupOf (K : gset string) : KnownLookup :=
  {| contains := fun h => bool_decide (h ∈ K);
     bulkContains := fun hs => K ∩ list_to_set hs |}.

Record Partition (A : Type) : Type := {
  new : list A;
  existing : list A
}.
Arguments new {A} p.
Arguments existing {A} p.

(** Modelled from the spec: [partition] of section 4.3 ([getNewBlobs] of
    utils/indexer is not among the sources). One bulk lookup for the whole
    candidate sequence, none when it is empty; both outputs keep the input
    order. The candidates are keyed by [key], so that the same function
    splits hashes and blobs. *)
Definition partitionBy {A} (key : A -> string) (candidates : list A)
    (knownLookup : KnownLookup) : list Event * Partition A :=
  match candidates with
  | [] => ([], {| new := []; existing := [] |})
  | _ :: _ =>
      let hashes := map key candidates in
      let known := bulkContains knownLookup hashes in
      ([EvBulkContains hashes],
       {| new := List.filter (fun c => negb (bool_decide (key c ∈ known))) candidates;
          existing := List.filter (fun c => bool_decide (key c ∈ known)) candidates |})
  end.

Definition partition (candidates : list string) (knownLookup : KnownLookup)
  : list Event * Partition string :=
  partitionBy (fun h => h) candidates knownLookup.

End DedupFilter.
Export DedupFilter.

(** ** The collaborators of [index] *)

Record PostageBatch : Type := {
  batchID : option string
}.

(** The state of the outside world during one call of [index]: what the Bee
    debug API answers, what Prisma knows and how its two reads of step 2
    settle, how each write settles, and whether the final transaction
    commits. A write is a function of its arguments: the same file written
    twice settles the same way. *)
Record World : Type := {
  getAllPostageBatch : Result (list PostageBatch);
  knownLookup : KnownLookup;
  addressesRead : Settled unit;
  blobsRead : Settled unit;
  bucketExists : string -> bool;
  bucketWrite : string -> string -> string -> Settled unit;
  uploadFile : string -> string -> string -> Settled string;
  fsRootWritable : bool;
  transaction : TransactionOps -> Result unit
}.

Definition BUCKET_MISSING : Error := ClientError "The specified bucket does not exist.".

(** [storage.bucket(bucket).file(file).save(content)]: rejected when the
    bucket is missing, and otherwise as the world has it. *)
Definition save (w : World) (bucket file content : string) : Settled unit :=
  if bucketExists w bucket
  then bucketWrite w bucket file content
  else mkSettled (at_tick (bucketWrite w bucket file content)) (Rejected BUCKET_MISSING).

Definition NO_POSTAGE : Error :=
  TRPCError "INTERNAL_SERVER_ERROR" "Not available Swarm postages".

(** Whether the postage check of [index] lets the run through. *)
Inductive PostageCheck (w : World) : Prop :=
| postage_found batch0 rest batchId :
    getAllPostageBatch w = Resolved (batch0 :: rest) ->
    batchID batch0 = Some batchId ->
    PostageCheck w.

Module Indexer.
Section Helpers.

(** [BUCKET_NAME] of ../env. *)
Variable BUCKET_NAME : string.
(** [buildGoogleStorageUri] of ../utils/storages. *)
Variable buildGoogleStorageUri : string -> string.
(** [calculateBlobSize] of ../utils/blob. *)
Variable calculateBlobSize : string -> Z.
(** [getUniqueAddressesFromTxs] of ../utils/indexer, a read of Prisma. *)
Variable getUniqueAddressesFromTxs : World -> list TransactionInput -> UniqueAddresses.

(** Modelled from the spec: [getNewBlobs] of ../utils/indexer is not among
    the sources; it is the [new] side of the dedup partition of the blobs,
    keyed by their versioned hash, against what Prisma knows. Its promise
    settles as the read of Prisma does; for no blob there is no read and it
    resolves at once. *)
Definition getNewBlobs (w : World) (blobs : list BlobInput)
  : list Event * Settled (list BlobInput) :=
  let '(tr, p) := partitionBy versionedHash blobs (knownLookup w) in
  (tr,
   match blobs with
   | [] => mkSettled 0 (Resolved (new p))
   | _ :: _ => then_ (blobsRead w) (fun _ => new p)
   end).

(** How [await Promise.all([getUniqueAddressesFromTxs(...), getNewBlobs(...)])]
    ends, as far as the blobs go: with [newBlobs], or with the reason of the
    read that rejects first. *)
Definition stepTwo (w : World) (input : IndexRequest) : Result (list BlobInput) :=
  match outcome (all2 (addressesRead w) (snd (getNewBlobs w (blobs input)))) with
  | Resolved (_, newBlobs) => Resolved newBlobs
  | Rejected e => Rejected e
  end.

(** [newBlobs], the blobs that step 3 uploads: none when step 2 rejects. *)
Definition newBlobsOf (w : World) (input : IndexRequest) : list BlobInput :=
  match stepTwo w input with
  | Resolved newBlobs => newBlobs
  | Rejected _ => []
  end.

(** Both reads of step 2 resolve. *)
Definition ReadsResolve (w : World) (input : IndexRequest) : Prop :=
  stepTwo w input = Resolved (newBlobsOf w input).

(** When and why a promise rejects. *)
Definition rejectionOf {A} (p : Settled A) : list (nat * Error) :=
  match outcome p with Rejected e => [(at_tick p, e)] | Resolved _ => [] end.

(** The writes of [newBlobs] that reject, each with its tick and reason. *)
Definition timedFailures (w : World) (batchId : string) (newBlobs : list BlobInput)
  : list (nat * Error) :=
  flat_map (fun b =>
    rejectionOf (save w BUCKET_NAME (buildGoogleStorageUri (versionedHash b)) (data b))
    ++ rejectionOf (uploadFile w batchId (data b) (buildGoogleStorageUri (versionedHash b))))
    newBlobs.

(** The object that the body of [newBlobs.map] returns for [b], once its
    Swarm upload has resolved with [reference]. *)
Definition recordOf (b : BlobInput) (reference : string) : BlobRecord :=
  {| rec_id := versionedHash b;
     rec_versionedHash := versionedHash b;
     rec_commitment := commitment b;
     gsUri := buildGoogleStorageUri (versionedHash b);
     swarmHash := reference;
     rec_size := calculateBlobSize (data b) |}.

(** The body of [newBlobs.map(async (b) => ...)]: both uploads are issued,
    then awaited together. *)
Definition uploadBlob (w : World) (batchId : string) (b : BlobInput)
  : list Event * Settled BlobRecord :=
  let uploadBlobsToGoogleStoragePromise :=
    save w BUCKET_NAME (buildGoogleStorageUri (versionedHash b)) (data b) in
  let uploadBlobsToSwarmPromise :=
    uploadFile w batchId (data b) (buildGoogleStorageUri (versionedHash b)) in
  ([EvSave BUCKET_NAME (buildGoogleStorageUri (versionedHash b)) (data b);
    EvUploadFile batchId (data b) (buildGoogleStorageUri (versionedHash b))
      true "text/plain"],
   then_ (all2 uploadBlobsToGoogleStoragePromise uploadBlobsToSwarmPromise)
     (fun '(_, swarmUploadData) => recordOf b swarmUploadData)).

(** The promises of the mapped closures, as [Promise.all] receives them. *)
Definition uploads (w : World) (batchId : string) (newBlobs : list BlobInput)
  : list (Settled BlobRecord) :=
  map (fun b => snd (uploadBlob w batchId b)) newBlobs.

Definition lengthZ {A} (l : list A) : Z := Z.of_nat (length l).

(** Steps 4 and 5 of [index]: the operations of the final transaction. *)
Definition prepareOps (input : IndexRequest) (timestamp : Z)
    (addrs : UniqueAddresses) (uploadedBlobs : list BlobRecord) : TransactionOps :=
  let uniqueFrom := uniqueFromAddresses addrs in
  let uniqueTo := uniqueToAddresses addrs in
  let uploadedBlobsSize :=
    fold_left (fun totalBlobSize b => (totalBlobSize + rec_size b)%Z) uploadedBlobs 0%Z in
  let totalReceivers :=
    (lengthZ (addr_existing uniqueTo) + lengthZ (addr_new uniqueTo))%Z in
  let totalSenders :=
    (lengthZ (addr_existing uniqueFrom) + lengthZ (addr_new uniqueFrom))%Z in
  {| createBlock :=
       {| bd_id := block_number (block input);
          bd_number := block_number (block input);
          bd_hash := block_hash (block input);
          bd_timestamp := timestamp;
          bd_slot := block_slot (block input) |};
     updateAddresses := addr_existing uniqueFrom ++ addr_existing uniqueTo;
     createAddresses := addr_new uniqueFrom ++ addr_new uniqueTo;
     createTransactions :=
       map (fun t =>
              {| td_id := tx_hash t;
                 td_hash := tx_hash t;
                 td_fromId := tx_from t;
                 td_toId := tx_to t;
                 td_blockNumber := tx_blockNumber t;
                 td_timestamp := timestamp |}) (transactions input);
     createBlobsData := uploadedBlobs;
     createBlobsOnTransaction :=
       map (fun b =>
              {| bt_blobHash := versionedHash b;
                 bt_txHash := txHash b;
                 bt_index := index_in_tx b |}) (blobs input);
     updateOverallBlockStats := 1%Z;
     updateOverallTxStats :=
       (lengthZ (transactions input), totalReceivers, totalSenders);
     updateOverallBlobStats :=
       (lengthZ (blobs input), lengthZ uploadedBlobs, uploadedBlobsSize) |}.

(** Steps 1 to 3 of [index]: the postage check, the two reads of Prisma
    (issued and awaited together, so that a rejected read rejects the run
    before any write; the read of the addresses issues no call that the trace
    records) and the uploads. It resolves with what the later steps use: the
    unique addresses and [uploadedBlobs]. *)
Definition uploadStage (w : World) (input : IndexRequest)
  : Run (UniqueAddresses * list BlobRecord) :=
  let* batches := call EvGetAllPostageBatch (getAllPostageBatch w) in
  match batches with
  | [] => reject NO_POSTAGE
  | batch0 :: _ =>
      match batchID batch0 with
      | None => reject NO_POSTAGE
      | Some batchId =>
          let uniqueAddressesPromise :=
            then_ (addressesRead w)
              (fun _ => getUniqueAddressesFromTxs w (transactions input)) in
          let newBlobsRun := getNewBlobs w (blobs input) in
          let* reads :=
            (fst newBlobsRun, outcome (all2 uniqueAddressesPromise (snd newBlobsRun))) in
          let* uploadedBlobs := awaitAll (uploadBlob w batchId) (snd reads) in
          ret (fst reads, uploadedBlobs)
      end
  end.

(** The [index] mutation of [indexerRouter]. *)
Definition index (w : World) (input : IndexRequest) : Run unit :=
  let timestamp := (block_timestamp (block input) * 1000)%Z in
  let* uploaded := uploadStage w input in
  let ops := prepareOps input timestamp (fst uploaded) (snd uploaded) in
  call (EvTransaction ops) (transaction w ops).

(** [uploadedBlobs], when the run gets as far as step 4. *)
Definition uploadedBlobs (w : World) (input : IndexRequest) : Result (list BlobRecord) :=
  match result (uploadStage w input) with
  | Resolved u => Resolved (snd u)
  | Rejected e => Rejected e
  end.

(** The calls that the upload of [newBlobs] issues. *)
Definition writesOf (batchId : string) (newBlobs : list BlobInput) : list Event :=
  flat_map (fun b =>
    [EvSave BUCKET_NAME (buildGoogleStorageUri (versionedHash b)) (data b);
     EvUploadFile batchId (data b) (buildGoogleStorageUri (versionedHash b))
       true "text/plain"]) newBlobs.

(** The reasons with which the writes of [newBlobs] reject. *)
Definition reasonOf {A} (p : Settled A) : list Error :=
  match outcome p with Rejected e => [e] | Resolved _ => [] end.

Definition writeFailures (w : World) (batchId : string) (newBlobs : list BlobInput)
  : list Error :=
  flat_map (fun b =>
    reasonOf (save w BUCKET_NAME (buildGoogleStorageUri (versionedHash b)) (data b))
    ++ reasonOf (uploadFile w batchId (data b) (buildGoogleStorageUri (versionedHash b))))
    newBlobs.

End Helpers.
End Indexer.
Import Indexer.

(** ** Backend health, as the storage core describes it *)

Inductive Backend : Type := ObjectStore | ContentNetworkStore | FilesystemStore.

Definition FS_NOT_WRITABLE : Error := ClientError "The root path is not writable.".

(** Modelled from the spec: [healthCheck] of section 4.2, which [index] has no
    call of: the object store is healthy when its bucket is reachable, the
    content network when it answers with at least one postage batch, the
    filesystem when its root is writable. *)
Definition healthCheck (bucket : string) (w : World) (b : Backend) : Result unit :=
  match b with
  | ObjectStore =>
      if bucketExists w bucket then Resolved tt else Rejected BUCKET_MISSING
  | ContentNetworkStore =>
      match getAllPostageBatch w with
      | Rejected e => Rejected e
      | Resolved [] => Rejected NO_POSTAGE
      | Resolved (_ :: _) => Resolved tt
      end
  | FilesystemStore =>
      if fsRootWritable w then Resolved tt else Rejected FS_NOT_WRITABLE
  end.

(** The failures an error value carries: the source's errors are single
    errors, there is no aggregate among them. *)
Definition carried (e : Error) : list Error := [e].

Definition saveKeys (tr : list Event) : list string :=
  flat_map (fun e => match e with EvSave _ file _ => [file] | _ => [] end) tr.

Definition uploadKeys (tr : list Event) : list string :=
  flat_map (fun e => match e with EvUploadFile _ _ name _ _ => [name] | _ => [] end) tr.

(** The store operations of a trace, its lookups and its transactions. *)
Definition writes (tr : list Event) : list Event := List.filter is_write tr.
Definition lookups (tr : list Event) : list Event := List.filter is_lookup tr.
Definition transactions_of (tr : list Event) : list Event := List.filter is_transaction tr.

(** ** Two readings of the storage core's contract, to be compared with [index] *)

Module Contract.
Section Helpers.

Variable BUCKET_NAME : string.
Variable buildGoogleStorageUri : string -> string.
Variable calculateBlobSize : string -> Z.
Variable getUniqueAddressesFromTxs : World -> list TransactionInput -> UniqueAddresses.

Local Abbreviation index :=
  (Indexer.index BUCKET_NAME buildGoogleStorageUri calculateBlobSize getUniqueAddressesFromTxs).
Local Abbreviation uploadedBlobs :=
  (Indexer.uploadedBlobs BUCKET_NAME buildGoogleStorageUri calculateBlobSize
     getUniqueAddressesFromTxs).
Local Abbreviation writeFailures := (Indexer.writeFailures BUCKET_NAME buildGoogleStorageUri).

(** A failed write fails the batch with an error that carries every failed
    write of the batch, and no record is kept. *)
Definition aggregated_batch_failure : Prop :=
  forall w input batch0 rest batchId,
    getAllPostageBatch w = Resolved (batch0 :: rest) ->
    batchID batch0 = Some batchId ->
    writeFailures w batchId (newBlobsOf w input) <> [] ->
    exists e,
      uploadedBlobs w input = Rejected e /\
      Forall (fun f => In f (carried e)) (writeFailures w batchId (newBlobsOf w input)) /\
      persisted (trace (index w input)) = [].

(** A failed health check of any backend fails the batch before any
    write. *)
Definition health_checked_before_writes : Prop :=
  forall w input b e,
    healthCheck BUCKET_NAME w b = Rejected e ->
    (exists e', result (index w input) = Rejected e') /\
    writes (trace (index w input)) = [].

End Helpers.

(** The derived key ends with the remainder of the hash, the part that the
    segments leave. *)
Definition key_ends_with_remainder : Prop :=
  forall (chainPrefix : Z -> string) (depth : nat) (chainId : Z) (contentHash : string),
    deriveKey chainPrefix 2 depth chainId contentHash
    = deriveKeyWithRemainder chainPrefix 2 depth chainId contentHash.

End Contract.

(** ** Sample requests and worlds *)

Module Fixtures.

Definition decimal (z : Z) : string := NilZero.string_of_int (Z.to_int z).

(** The chain id and the file name of the [storeBlob] test of
    GoogleStorage.test.ts, and the hex digits that the file name holds. *)
Definition TEST_CHAIN_ID : Z := 70118930558.
Definition TEST_DIGITS : string :=
  "0100eac880c712dba4346c88ab564fa1b79024106f78f732cca49d8a68e4c174".
Definition TEST_FILE : string :=
  "70118930558/01/00/ea/0100eac880c712dba4346c88ab564fa1b79024106f78f732cca49d8a68e4c174.txt".

Definition BUCKET : string := "blobscan-test".
Definition uri : string -> string := deriveKey decimal 2 2 1.
Definition sizeOf (s : string) : Z := Z.of_nat (String.length s).
Definition noAddresses (w : World) (txs : list TransactionInput) : UniqueAddresses :=
  {| uniqueFromAddresses := {| addr_new := []; addr_existing := [] |};
     uniqueToAddresses := {| addr_new := []; addr_existing := [] |} |}.

Definition blobA : BlobInput :=
  {| versionedHash := "0xaa11"; commitment := "0xc0aa"; data := "hello";
     txHash := "0x7a"; index_in_tx := 0 |}.
Definition blobB : BlobInput :=
  {| versionedHash := "0xbb22"; commitment := "0xc0bb"; data := "world";
     txHash := "0x7a"; index_in_tx := 1 |}.
Definition blobC : BlobInput :=
  {| versionedHash := "0xcc33"; commitment := "0xc0cc"; data := "again";
     txHash := "0x7b"; index_in_tx := 0 |}.

Definition request (bs : list BlobInput) : IndexRequest :=
  {| block := {| block_number := 7; block_hash := "0xb10c";
                 block_timestamp := 1700000000; block_slot := 42 |};
     transactions := [];
     blobs := bs |}.

(** Postage is available, the bucket exists, every write resolves and
    nothing is known yet. *)
Definition healthy : World :=
  {| getAllPostageBatch := Resolved [ {| batchID := Some "batch-0" |} ];
     knownLookup := lookupOf ∅;
     addressesRead := mkSettled 1 (Resolved tt);
     blobsRead := mkSettled 1 (Resolved tt);
     bucketExists := fun _ => true;
     bucketWrite := fun _ _ _ => mkSettled 1 (Resolved tt);
     uploadFile := fun _ _ name => mkSettled 2 (Resolved (String.append "ref:" name));
     fsRootWritable := true;
     transaction := fun _ => Resolved tt |}.

Definition withKnown (K : gset string) (w : World) : World :=
  {| getAllPostageBatch := getAllPostageBatch w;
     knownLookup := lookupOf K;
     addressesRead := addressesRead w;
     blobsRead := blobsRead w;
     bucketExists := bucketExists w;
     bucketWrite := bucketWrite w;
     uploadFile := uploadFile w;
     fsRootWritable := fsRootWritable w;
     transaction := transaction w |}.

Definition withPostage (r : Result (list PostageBatch)) (w : World) : World :=
  {| getAllPostageBatch := r;
     knownLookup := knownLookup w;
     addressesRead := addressesRead w;
     blobsRead := blobsRead w;
     bucketExists := bucketExists w;
     bucketWrite := bucketWrite w;
     uploadFile := uploadFile w;
     fsRootWritable := fsRootWritable w;
     transaction := transaction w |}.

(** The Bee node answers with no postage batch. *)
Definition noPostage : World := withPostage (Resolved []) healthy.

(** The bucket is missing. *)
Definition noBucket : World :=
  {| getAllPostageBatch := getAllPostageBatch healthy;
     knownLookup := knownLookup healthy;
     addressesRead := addressesRead healthy;
     blobsRead := blobsRead healthy;
     bucketExists := fun _ => false;
     bucketWrite := bucketWrite healthy;
     uploadFile := uploadFile healthy;
     fsRootWritable := true;
     transaction := transaction healthy |}.

(** Every Swarm upload rejects, each with a cause of its own; the upload of
    [blobA] rejects first. *)
Definition swarmDown : World :=
  {| getAllPostageBatch := getAllPostageBatch healthy;
     knownLookup := knownLookup healthy;
     addressesRead := addressesRead healthy;
     blobsRead := blobsRead healthy;
     bucketExists := bucketExists healthy;
     bucketWrite := bucketWrite healthy;
     uploadFile := fun _ content _ =>
       if String.eqb content "hello"
       then mkSettled 3 (Rejected (ClientError "swarm: upload of hello refused"))
       else mkSettled 4 (Rejected (ClientError (String.append "swarm: no room for " content)));
     fsRootWritable := true;
     transaction := transaction healthy |}.

(** Only the Swarm upload of [blobB] rejects. *)
Definition oneUploadFails : World :=
  {| getAllPostageBatch := getAllPostageBatch healthy;
     knownLookup := knownLookup healthy;
     addressesRead := addressesRead healthy;
     blobsRead := blobsRead healthy;
     bucketExists := bucketExists healthy;
     bucketWrite := bucketWrite healthy;
     uploadFile := fun _ content name =>
       if String.eqb content "world"
       then mkSettled 3 (Rejected (ClientError "swarm: upload refused"))
       else mkSettled 2 (Resolved (String.append "ref:" name));
     fsRootWritable := true;
     transaction := transaction healthy |}.

End Fixtures.

(** ** More observations of a trace *)

Definition saveContents (tr : list Event) : list string :=
  flat_map (fun e => match e with EvSave _ _ content => [content] | _ => [] end) tr.

Definition uploadContents (tr : list Event) : list string :=
  flat_map (fun e => match e with EvUploadFile _ content _ _ _ => [content] | _ => [] end) tr.

Definition sumZ (l : list Z) : Z := fold_right Z.add 0%Z l.

(** ** The slot procedures of [indexerRouter] *)

Module Slot.

(** A row of [indexerMetadata]. *)
Record IndexerMetadata : Type := {
  meta_id : Z;
  lastSlot : Z
}.

(** [prisma.indexerMetadata.findUnique({ where: { id } })]. *)
Definition findUnique (table : gmap Z IndexerMetadata) (id : Z) : option IndexerMetadata :=
  table !! id.

(** [prisma.indexerMetadata.upsert({ where: { id }, update, create })]: the
    row with this id is updated when there is one, and [create] is inserted
    otherwise. *)
Definition upsert (table : gmap Z IndexerMetadata) (id : Z)
    (update : IndexerMetadata -> IndexerMetadata) (create : IndexerMetadata)
  : gmap Z IndexerMetadata :=
  match table !! id with
  | Some row => <[id := update row]> table
  | None => <[meta_id create := create]> table
  end.

(** The [getSlot] query: [indexerMetadata?.lastSlot ?? 0]. *)
Definition getSlot (table : gmap Z IndexerMetadata) : Z :=
  match findUnique table 1 with
  | Some indexerMetadata => lastSlot indexerMetadata
  | None => 0
  end.

(** The [updateSlot] mutation. *)
Definition updateSlot (slot : Z) (table : gmap Z IndexerMetadata) : gmap Z IndexerMetadata :=
  upsert table 1
    (fun row => {| meta_id := meta_id row; lastSlot := slot |})
    {| meta_id := 1; lastSlot := slot |}.

(** Every row is stored under its own id. *)
Definition keyed (table : gmap Z IndexerMetadata) : Prop :=
  forall k row, table !! k = Some row -> meta_id row = k.

End Slot.

(** ** The environment schema of the web app (apps/web/src/env.mjs) *)

Module Env.

Inductive Parsed (A : Type) : Type :=
| Valid (value : A)
| Invalid.
Arguments Valid {A} value.
Arguments Invalid {A}.

(** [TRACES_ENABLED]: [z.string().default("false").refine(...).transform(...)]
    on a variable that is a string or undefined. *)
Definition TRACES_ENABLED (v : option string) : Parsed bool :=
  let s := match v with Some s => s | None => "false" end in
  if (String.eqb s "true" || String.eqb s "false" || String.eqb s "")%bool
  then Valid (String.eqb s "true")
  else Invalid.

(** [!!v] for a variable of the environment: a string or undefined. *)
Definition truthy (v : option string) : bool :=
  match v with
  | Some s => negb (String.eqb s "")
  | None => false
  end.

(** [skipValidation: !!process.env.CI || !!process.env.SKIP_ENV_VALIDATION]. *)
Definition skipValidation (CI SKIP_ENV_VALIDATION : option string) : bool :=
  (truthy CI || truthy SKIP_ENV_VALIDATION)%bool.

End Env.

(** ** The rollup schema *)

Module Rollup.

Definition upperAscii (c : ascii) : ascii :=
  let n := nat_of_ascii c in
  if ((97 <=? n) && (n <=? 122))%nat%bool then ascii_of_nat (n - 32) else c.

Definition lowerAscii (c : ascii) : ascii :=
  let n := nat_of_ascii c in
  if ((65 <=? n) && (n <=? 90))%nat%bool then ascii_of_nat (n + 32) else c.

Fixpoint mapString (f : ascii -> ascii) (s : string) : string :=
  match s with
  | EmptyString => EmptyString
  | String c s' => String (f c) (mapString f s')
  end.

(** [toUpperCase] and [toLowerCase], on the ASCII letters that the rollup
    names are made of. *)
Definition toUpperCase : string -> string := mapString upperAscii.
Definition toLowerCase : string -> string := mapString lowerAscii.

Definition ROLLUPS : list string :=
  ["arbitrum"; "base"; "optimism"; "scroll"; "starknet"; "zksync"].

(** [rollupSchema]: the enum, then the transform to upper case; [None] when
    the enum refuses the string. *)
Definition rollupSchema (rollup : string) : option string :=
  if existsb (String.eqb rollup) ROLLUPS then Some (toUpperCase rollup) else None.

End Rollup.

(** ** The blob transaction card *)

Module Card.

(** The values of a JavaScript number that sums of whole numbers reach: a
    double that holds a whole number, an infinity, or NaN. *)
Inductive Number : Type :=
| Finite (z : Z)
| Infinity (negative : bool)
| NaN.

(** [Number.MAX_SAFE_INTEGER]. *)
Definition MAX_SAFE_INTEGER : Z := 2 ^ 53 - 1.

(** The double nearest to the whole number [z]: [z] itself below [2^53] in
    absolute value; otherwise the 53 leading bits of [z], rounded to the
    nearest, a tie to the even one; an infinity from [2^1024] on. *)
Definition roundDouble (z : Z) : Number :=
  let a := Z.abs z in
  if (a <? 2 ^ 53)%Z then Finite z
  else
    let e := (Z.log2 a - 52)%Z in
    let q := (a / 2 ^ e)%Z in
    let r := (a mod 2 ^ e)%Z in
    let half := (2 ^ (e - 1))%Z in
    let q' := if (r <? half)%Z then q
              else if (half <? r)%Z then (q + 1)%Z
              else if Z.even q then q else (q + 1)%Z in
    let m := (q' * 2 ^ e)%Z in
    if (2 ^ 1024 <=? m)%Z then Infinity (z <? 0)%Z else Finite (Z.sgn z * m)%Z.

(** [x + y] on numbers. *)
Definition add (x y : Number) : Number :=
  match x, y with
  | NaN, _ | _, NaN => NaN
  | Infinity s, Infinity s' => if Bool.eqb s s' then Infinity s else NaN
  | Infinity s, Finite _ | Finite _, Infinity s => Infinity s
  | Finite a, Finite b => roundDouble (a + b)
  end.

(** An element of [blobsOnTx], with the size of its blob: a whole number that
    a double holds. *)
Record BlobOnTx : Type := {
  bot_blobHash : string;
  bot_blobSize : Z;
  bot_index : Z
}.

(** [blobsOnTx?.reduce((acc, { blob }) => acc + blob.size, 0) ?? 0]. *)
Definition totalBlobSize (blobsOnTx : option (list BlobOnTx)) : Number :=
  match blobsOnTx with
  | Some l => fold_left (fun acc b => add acc (Finite (bot_blobSize b))) l (Finite 0)
  | None => Finite 0
  end.

End Card.

(** ** More sample worlds *)

Module MoreFixtures.

(** The first postage batch has no id, the second has one. *)
Definition firstBatchUnusable : World :=
  Fixtures.withPostage
    (Resolved [ {| batchID := None |}; {| batchID := Some "batch-1" |} ])
    Fixtures.healthy.

(** Two usable batches. *)
Definition twoBatches : World :=
  Fixtures.withPostage
    (Resolved [ {| batchID := Some "batch-0" |}; {| batchID := Some "batch-1" |} ])
    Fixtures.healthy.

Definition DB_DOWN : Error := ClientError "prisma: transaction failed".

(** Every upload resolves and the final transaction is rejected. *)
Definition transactionFails : World :=
  {| getAllPostageBatch := getAllPostageBatch Fixtures.healthy;
     knownLookup := knownLookup Fixtures.healthy;
     addressesRead := addressesRead Fixtures.healthy;
     blobsRead := blobsRead Fixtures.healthy;
     bucketExists := bucketExists Fixtures.healthy;
     bucketWrite := bucketWrite Fixtures.healthy;
     uploadFile := uploadFile Fixtures.healthy;
     fsRootWritable := true;
     transaction := fun _ => Rejected DB_DOWN |}.

Definition slotTable : gmap Z Slot.IndexerMetadata :=
  {[ 1%Z := {| Slot.meta_id := 1; Slot.lastSlot := 41 |};
     2%Z := {| Slot.meta_id := 2; Slot.lastSlot := 7 |} ]}.

(** Blobs of a transaction on the card, of 128 KiB each but the last. *)
Definition cardBlob (hash : string) (size index : Z) : Card.BlobOnTx :=
  {| Card.bot_blobHash := hash; Card.bot_blobSize := size; Card.bot_index := index |}.
Definition cardBlobs : list Card.BlobOnTx :=
  [cardBlob "0xaa11" 131072 0; cardBlob "0xbb22" 131072 1; cardBlob "0xcc33" 4096 2].

(** The same blobs in two orders, with sizes past the safe integers: [2^53]
    first, or last. *)
Definition hugeFirst : list Card.BlobOnTx :=
  [cardBlob "0xaa11" (2 ^ 53) 0; cardBlob "0xbb22" 1 1; cardBlob "0xcc33" 1 2].
Definition hugeLast : list Card.BlobOnTx :=
  [cardBlob "0xbb22" 1 1; cardBlob "0xcc33" 1 2; cardBlob "0xaa11" (2 ^ 53) 0].

End MoreFixtures.

(** * Properties *)

(** ** [Promise.all] *)

Section PromiseFacts.

Context {A : Type}.
Implicit Types (ps : list (Settled A)) (e : Error).

Lemma first_rejection_None ps :
  first_rejection ps = None <-> rejections ps = [].
Proof.
  induction ps as [|p ps IH]; simpl; [tauto|].
  destruct (outcome p); [exact IH|].
  split; [|discriminate].
  destruct (first_rejection ps) as [[t e']|]; [|discriminate].
  destruct (at_tick p <=? t)%nat; discriminate.
Qed.

Lemma first_rejection_In ps t e :
  first_rejection ps = Some (t, e) -> In e (rejections ps).
Proof.
  revert t e. induction ps as [|p ps IH]; simpl; intros t e H; [discriminate|].
  destruct (outcome p) as [v|e0]; [eauto|].
  destruct (first_rejection ps) as [[t' e']|].
  - destruct (at_tick p <=? t')%nat; inversion H; subst; [now left|].
    right. eapply IH. reflexivity.
  - inversion H; subst. now left.
Qed.

Lemma rejections_In ps p e :
  In p ps -> outcome p = Rejected e -> In e (rejections ps).
Proof.
  induction ps as [|q ps IH]; simpl; [tauto|].
  intros [->|Hin] Hp.
  - rewrite Hp. now left.
  - destruct (outcome q); [|right]; auto.
Qed.

Lemma first_rejection_earliest ps t e :
  first_rejection ps = Some (t, e) ->
  (exists p, In p ps /\ outcome p = Rejected e /\ at_tick p = t) /\
  (forall q e', In q ps -> outcome q = Rejected e' -> t <= at_tick q).
Proof.
  revert t e. induction ps as [|p ps IH]; simpl; intros t e H; [discriminate|].
  destruct (outcome p) as [v|e0] eqn:Ep.
  - destruct (IH _ _ H) as [(p' & Hin & Hp' & Ht) Hmin]. split; [eauto 6|].
    intros q e' [<-|Hq] Hrej; [congruence|eauto].
  - destruct (first_rejection ps) as [[t' e']|] eqn:Er.
    + destruct (IH _ _ eq_refl) as [(p' & Hin & Hp' & Ht) Hmin].
      destruct (at_tick p <=? t')%nat eqn:Hle; inversion H; subst.
      * apply Nat.leb_le in Hle. split; [eauto 6|].
        intros q e'' [<-|Hq] Hrej; [lia|]. specialize (Hmin _ _ Hq Hrej). lia.
      * apply Nat.leb_gt in Hle. split; [eauto 6|].
        intros q e'' [<-|Hq] Hrej; [lia|eauto].
    + inversion H; subst. split; [eauto 6|].
      intros q e'' [<-|Hq] Hrej; [lia|].
      apply first_rejection_None in Er.
      pose proof (rejections_In _ _ _ Hq Hrej) as Hin. rewrite Er in Hin. contradiction.
Qed.

Lemma values_all_resolved ps :
  rejections ps = [] -> map outcome ps = map Resolved (values ps).
Proof.
  induction ps as [|p ps IH]; simpl; [reflexivity|].
  destruct (outcome p); [|discriminate].
  intros H. simpl. now rewrite IH.
Qed.

Lemma all_resolved ps vs :
  outcome (Promise.all ps) = Resolved vs ->
  rejections ps = [] /\ vs = values ps /\ map outcome ps = map Resolved vs.
Proof.
  unfold Promise.all.
  destruct (first_rejection ps) as [[t e]|] eqn:E; simpl; [discriminate|].
  intros H. inversion H; subst. apply first_rejection_None in E.
  auto using values_all_resolved.
Qed.

Lemma all_rejected ps e :
  outcome (Promise.all ps) = Rejected e -> In e (rejections ps).
Proof.
  unfold Promise.all.
  destruct (first_rejection ps) as [[t e']|] eqn:E; simpl; [|discriminate].
  intros H. inversion H; subst. eauto using first_rejection_In.
Qed.

Lemma all_rejects ps :
  rejections ps <> [] -> exists e, outcome (Promise.all ps) = Rejected e.
Proof.
  intros H. unfold Promise.all.
  destruct (first_rejection ps) as [[t e]|] eqn:E; simpl; [eauto|].
  apply first_rejection_None in E. contradiction.
Qed.


End PromiseFacts.

(** ** The upload of the new blobs *)

Section IndexerFacts.

Variable BUCKET_NAME : string.
Variable buildGoogleStorageUri : string -> string.
Variable calculateBlobSize : string -> Z.
Variable getUniqueAddressesFromTxs : World -> list TransactionInput -> UniqueAddresses.

Local Abbreviation uploadBlob := (Indexer.uploadBlob BUCKET_NAME buildGoogleStorageUri calculateBlobSize).
Local Abbreviation uploadStage := (Indexer.uploadStage BUCKET_NAME buildGoogleStorageUri calculateBlobSize getUniqueAddressesFromTxs).
Local Abbreviation index := (Indexer.index BUCKET_NAME buildGoogleStorageUri calculateBlobSize getUniqueAddressesFromTxs).
Local Abbreviation uploadedBlobs := (Indexer.uploadedBlobs BUCKET_NAME buildGoogleStorageUri calculateBlobSize getUniqueAddressesFromTxs).
Local Abbreviation writesOf := (Indexer.writesOf BUCKET_NAME buildGoogleStorageUri).
Local Abbreviation writeFailures := (Indexer.writeFailures BUCKET_NAME buildGoogleStorageUri).
Local Abbreviation timedFailures := (Indexer.timedFailures BUCKET_NAME buildGoogleStorageUri).
Local Abbreviation uploads := (Indexer.uploads BUCKET_NAME buildGoogleStorageUri calculateBlobSize).
Local Abbreviation recordOf := (Indexer.recordOf buildGoogleStorageUri calculateBlobSize).
Local Abbreviation key b := (buildGoogleStorageUri (versionedHash b)).

Lemma uploadBlob_resolved w batchId b r :
  outcome (snd (uploadBlob w batchId b)) = Resolved r ->
  exists reference,
    outcome (save w BUCKET_NAME (key b) (data b)) = Resolved tt /\
    outcome (uploadFile w batchId (data b) (key b)) = Resolved reference /\
    r = recordOf b reference.
Proof.
  unfold Indexer.uploadBlob, then_, all2; simpl.
  destruct (outcome (save _ _ _ _)) as [[]|e1], (outcome (uploadFile _ _ _ _)) as [ref|e2];
    simpl; try discriminate.
  - intros H; inversion H; eauto.
  - destruct (_ <=? _)%nat; simpl; discriminate.
Qed.

Lemma uploadBlob_rejected w batchId b e :
  outcome (snd (uploadBlob w batchId b)) = Rejected e ->
  In e (writeFailures w batchId [b]).
Proof.
  unfold Indexer.uploadBlob, Indexer.writeFailures, reasonOf, then_, all2; simpl.
  destruct (outcome (save _ _ _ _)) as [[]|e1], (outcome (uploadFile _ _ _ _)) as [ref|e2];
    simpl; try discriminate.
  - intros H; inversion H; auto.
  - intros H; inversion H; auto.
  - destruct (_ <=? _)%nat; simpl; intros H; inversion H; auto.
Qed.

Lemma uploadBlob_rejects w batchId b :
  writeFailures w batchId [b] <> [] ->
  exists e, outcome (snd (uploadBlob w batchId b)) = Rejected e.
Proof.
  unfold Indexer.uploadBlob, Indexer.writeFailures, reasonOf, then_, all2; simpl.
  destruct (outcome (save _ _ _ _)) as [[]|e1], (outcome (uploadFile _ _ _ _)) as [ref|e2];
    simpl; eauto.
  - intros H; now contradiction H.
  - destruct (_ <=? _)%nat; simpl; eauto.
Qed.

Lemma writeFailures_cons w batchId b bs :
  writeFailures w batchId (b :: bs)
  = writeFailures w batchId [b] ++ writeFailures w batchId bs.
Proof. unfold Indexer.writeFailures. simpl. now rewrite app_nil_r. Qed.

Lemma uploads_rejections_incl w batchId newBlobs e :
  In e (rejections (uploads w batchId newBlobs)) -> In e (writeFailures w batchId newBlobs).
Proof.
  clear getUniqueAddressesFromTxs.
  induction newBlobs as [|b bs IH]; [simpl; tauto|].
  rewrite writeFailures_cons, in_app_iff.
  change (uploads w batchId (b :: bs))
    with (snd (uploadBlob w batchId b) :: uploads w batchId bs).
  cbn [rejections].
  destruct (outcome (snd (uploadBlob w batchId b))) eqn:E; [auto|].
  intros [<-|H]; auto using uploadBlob_rejected.
Qed.

Lemma uploads_rejections_nonempty w batchId newBlobs :
  writeFailures w batchId newBlobs <> [] -> rejections (uploads w batchId newBlobs) <> [].
Proof.
  clear getUniqueAddressesFromTxs.
  induction newBlobs as [|b bs IH]; [simpl; tauto|].
  rewrite writeFailures_cons. intros H.
  change (uploads w batchId (b :: bs))
    with (snd (uploadBlob w batchId b) :: uploads w batchId bs).
  cbn [rejections].
  destruct (writeFailures w batchId [b]) eqn:Eb.
  - cbn [app] in H. destruct (outcome (snd (uploadBlob w batchId b))); [auto|discriminate].
  - destruct (uploadBlob_rejects w batchId b) as [e' He']; [rewrite Eb; discriminate|].
    rewrite He'. discriminate.
Qed.

Lemma uploads_values w batchId newBlobs :
  rejections (uploads w batchId newBlobs) = [] ->
  Forall2 (fun b r => exists reference,
               outcome (uploadFile w batchId (data b) (key b)) = Resolved reference /\
               r = recordOf b reference)
          newBlobs (values (uploads w batchId newBlobs)).
Proof.
  induction newBlobs as [|b bs IH]; [constructor|].
  change (uploads w batchId (b :: bs))
    with (snd (uploadBlob w batchId b) :: uploads w batchId bs).
  cbn [rejections values].
  destruct (outcome (snd (uploadBlob w batchId b))) as [r|e] eqn:E; [|discriminate].
  intros H. constructor; [|auto].
  destruct (uploadBlob_resolved _ _ _ _ E) as (ref & _ & ? & ?); eauto.
Qed.

Lemma uploadBlob_tick w batchId b e :
  outcome (snd (uploadBlob w batchId b)) = Rejected e ->
  In (at_tick (snd (uploadBlob w batchId b)), e) (timedFailures w batchId [b]) /\
  (forall t' e', In (t', e') (timedFailures w batchId [b]) ->
                 at_tick (snd (uploadBlob w batchId b)) <= t').
Proof.
  unfold Indexer.uploadBlob, Indexer.timedFailures, rejectionOf, then_, all2; simpl.
  destruct (outcome (save _ _ _ _)) as [[]|e1], (outcome (uploadFile _ _ _ _)) as [ref|e2];
    simpl; try (intros H; discriminate H).
  - intros H; inversion H; subst. split; [auto|]. intros t' e' [Heq|[]]. inversion Heq; lia.
  - intros H; inversion H; subst. split; [auto|]. intros t' e' [Heq|[]]. inversion Heq; lia.
  - destruct (_ <=? _)%nat eqn:Hle; simpl; intros H; inversion H; subst;
      [apply Nat.leb_le in Hle|apply Nat.leb_gt in Hle];
      (split; [auto|]); intros t' e' [Heq|[Heq|[]]]; inversion Heq; lia.
Qed.

Lemma timedFailures_rejects w batchId b t e :
  In (t, e) (timedFailures w batchId [b]) ->
  exists e', outcome (snd (uploadBlob w batchId b)) = Rejected e'.
Proof.
  clear getUniqueAddressesFromTxs.
  intros Hin. apply uploadBlob_rejects. revert Hin.
  unfold Indexer.timedFailures, Indexer.writeFailures, rejectionOf, reasonOf; simpl.
  destruct (outcome (save _ _ _ _)), (outcome (uploadFile _ _ _ _)); simpl;
    try discriminate; tauto.
Qed.

Lemma timedFailures_In w batchId newBlobs t e :
  In (t, e) (timedFailures w batchId newBlobs) <->
  exists b, In b newBlobs /\ In (t, e) (timedFailures w batchId [b]).
Proof.
  unfold Indexer.timedFailures. rewrite in_flat_map. simpl.
  split; intros (b & Hb & Hin); exists b; (split; [exact Hb|]);
    [now rewrite app_nil_r|now rewrite app_nil_r in Hin].
Qed.

(** [Promise.all] over the uploads rejects with the reason of a write that
    fails earliest. *)
Lemma uploads_rejected_earliest w batchId newBlobs e :
  outcome (Promise.all (uploads w batchId newBlobs)) = Rejected e ->
  exists t,
    In (t, e) (timedFailures w batchId newBlobs) /\
    forall t' e', In (t', e') (timedFailures w batchId newBlobs) -> t <= t'.
Proof.
  unfold Promise.all.
  destruct (first_rejection (uploads w batchId newBlobs)) as [[t e0]|] eqn:E; simpl;
    [|intros H; discriminate H].
  intros H; inversion H; subst e0.
  destruct (first_rejection_earliest _ _ _ E) as [(p & Hin & Hp & Ht) Hmin].
  unfold Indexer.uploads in Hin. apply in_map_iff in Hin as (b & <- & Hb).
  destruct (uploadBlob_tick _ _ _ _ Hp) as [Hmine _].
  exists t. split.
  - apply timedFailures_In. exists b. now rewrite <- Ht.
  - intros t' e' Hin'. apply timedFailures_In in Hin' as (b' & Hb' & Hin').
    destruct (timedFailures_rejects _ _ _ _ _ Hin') as [e'' He''].
    destruct (uploadBlob_tick _ _ _ _ He'') as [_ Hle].
    specialize (Hle _ _ Hin').
    assert (t <= at_tick (snd (uploadBlob w batchId b'))); [|lia].
    eapply Hmin; [|exact He''].
    exact (in_map (fun b => snd (uploadBlob w batchId b)) newBlobs b' Hb').
Qed.

Lemma awaitAll_trace w batchId newBlobs :
  trace (awaitAll (uploadBlob w batchId) newBlobs) = writesOf batchId newBlobs.
Proof. reflexivity. Qed.

Lemma all2_then_ {A B C} (p : Settled A) (q : Settled B) (f : A -> C) :
  outcome (all2 (then_ p f) q)
  = match outcome (all2 p q) with
    | Resolved (a, b) => Resolved (f a, b)
    | Rejected e => Rejected e
    end.
Proof.
  unfold all2, then_.
  destruct (outcome p), (outcome q); simpl; try reflexivity.
  now destruct (_ <=? _)%nat.
Qed.

Lemma getNewBlobs_trace w blobs :
  fst (getNewBlobs w blobs) = fst (partitionBy versionedHash blobs (knownLookup w)).
Proof. unfold getNewBlobs. now destruct (partitionBy _ _ _). Qed.

Lemma reads_dec w input :
  ReadsResolve w input \/ exists e, stepTwo w input = Rejected e.
Proof.
  unfold ReadsResolve, newBlobsOf. destruct (stepTwo w input); eauto.
Qed.

Lemma newBlobsOf_rejected w input e :
  stepTwo w input = Rejected e -> newBlobsOf w input = [].
Proof. unfold newBlobsOf. now intros ->. Qed.

Lemma newBlobs_reads w input :
  newBlobsOf w input <> [] -> ReadsResolve w input.
Proof.
  intros Hne. destruct (reads_dec w input) as [H|[e He]]; [exact H|].
  now rewrite (newBlobsOf_rejected _ _ _ He) in Hne.
Qed.

Lemma newBlobs_In_reads w input b :
  In b (newBlobsOf w input) -> ReadsResolve w input.
Proof. intros Hin. apply newBlobs_reads. intros Heq. now rewrite Heq in Hin. Qed.

(** The new blobs are at most those of the dedup partition: exactly those
    when the reads resolve. *)
Lemma newBlobsOf_resolved w input :
  ReadsResolve w input ->
  newBlobsOf w input = new (snd (partitionBy versionedHash (blobs input) (knownLookup w))).
Proof.
  unfold ReadsResolve, newBlobsOf, stepTwo, getNewBlobs.
  destruct (partitionBy versionedHash (blobs input) (knownLookup w)) as [tr p]; cbn [snd].
  destruct (blobs input) as [|b bs]; unfold all2, then_; cbn [outcome at_tick];
    destruct (outcome (addressesRead w)) as [[]|e1]; try (intros H; discriminate H);
    try reflexivity.
  - destruct (outcome (blobsRead w)) as [[]|e2]; simpl; [reflexivity|intros H; discriminate H].
  - destruct (outcome (blobsRead w)) as [[]|e2]; simpl; [intros H; discriminate H|].
    destruct (_ <=? _)%nat; intros H; discriminate H.
Qed.

Lemma newBlobsOf_incl w input b :
  In b (newBlobsOf w input) ->
  In b (new (snd (partitionBy versionedHash (blobs input) (knownLookup w)))).
Proof.
  intros Hin. now rewrite <- (newBlobsOf_resolved w input (newBlobs_In_reads _ _ _ Hin)).
Qed.


(** The outcome of the two reads, as [uploadStage] awaits them. *)
Lemma reads_outcome w input :
  outcome (all2 (then_ (addressesRead w)
                   (fun _ => getUniqueAddressesFromTxs w (transactions input)))
                (snd (getNewBlobs w (blobs input))))
  = match stepTwo w input with
    | Resolved newBlobs =>
        Resolved (getUniqueAddressesFromTxs w (transactions input), newBlobs)
    | Rejected e => Rejected e
    end.
Proof.
  rewrite all2_then_. unfold stepTwo.
  now destruct (outcome (all2 _ _)) as [[u newBlobs]|e].
Qed.

(** [uploadStage] once the postage check has found [batchId] and the reads
    have resolved. *)
Lemma uploadStage_postage w input batch0 rest batchId :
  getAllPostageBatch w = Resolved (batch0 :: rest) ->
  batchID batch0 = Some batchId ->
  ReadsResolve w input ->
  uploadStage w input =
    (EvGetAllPostageBatch
       :: fst (partitionBy versionedHash (blobs input) (knownLookup w))
       ++ writesOf batchId (newBlobsOf w input),
     match outcome (Promise.all (uploads w batchId (newBlobsOf w input))) with
     | Resolved records =>
         Resolved (getUniqueAddressesFromTxs w (transactions input), records)
     | Rejected e => Rejected e
     end).
Proof.
  intros Hp Hb Hr. unfold Indexer.uploadStage, call, bind.
  rewrite Hp, Hb, reads_outcome, getNewBlobs_trace, Hr. cbn [snd fst].
  unfold awaitAll. fold (uploads w batchId (newBlobsOf w input)).
  unfold Indexer.uploads, Indexer.writesOf.
  match goal with |- context [outcome ?x] => destruct (outcome x) end; simpl;
    now rewrite ?app_nil_r.
Qed.

(** [uploadStage] when a read of step 2 rejects: nothing is written. *)
Lemma uploadStage_reads_rejected w input batch0 rest batchId e :
  getAllPostageBatch w = Resolved (batch0 :: rest) ->
  batchID batch0 = Some batchId ->
  stepTwo w input = Rejected e ->
  uploadStage w input =
    (EvGetAllPostageBatch :: fst (partitionBy versionedHash (blobs input) (knownLookup w)),
     Rejected e).
Proof.
  intros Hp Hb Hr. unfold Indexer.uploadStage, call, bind.
  now rewrite Hp, Hb, reads_outcome, getNewBlobs_trace, Hr.
Qed.

(** [uploadStage] when the postage check finds nothing to use. *)
Lemma uploadStage_no_postage w input :
  match getAllPostageBatch w with
  | Resolved [] => True
  | Resolved (batch0 :: _) => batchID batch0 = None
  | Rejected _ => False
  end ->
  uploadStage w input = ([EvGetAllPostageBatch], Rejected NO_POSTAGE).
Proof.
  unfold Indexer.uploadStage, call, bind.
  destruct (getAllPostageBatch w) as [[|batch0 rest]|e]; simpl; try tauto.
  now intros ->.
Qed.

Lemma index_of_uploadStage w input :
  index w input =
    match uploadStage w input with
    | (tr, Resolved u) =>
        let ops := prepareOps input (block_timestamp (block input) * 1000)%Z (fst u) (snd u) in
        (tr ++ [EvTransaction ops], transaction w ops)
    | (tr, Rejected e) => (tr, Rejected e)
    end.
Proof.
  unfold Indexer.index, bind, call.
  now destruct (uploadStage w input) as [tr [u|e]].
Qed.

End IndexerFacts.

(** ** ContentAddresser: the shape of a derived key *)

Section AddresserFacts.

Implicit Types (s : string) (n : nat).

Lemma substring_whole s : String.substring 0 (String.length s) s = s.
Proof. induction s as [|c s IH]; simpl; [reflexivity|]. now rewrite IH. Qed.

Lemma drop_0 s : drop 0 s = s.
Proof. unfold drop. rewrite Nat.sub_0_r. apply substring_whole. Qed.

Lemma drop_S c s n : drop (S n) (String c s) = drop n s.
Proof. reflexivity. Qed.

Lemma take_drop n s : String.append (take n s) (drop n s) = s.
Proof.
  revert s. induction n as [|n IH]; intros s.
  - rewrite drop_0. unfold take. now destruct s.
  - destruct s as [|c s]; [reflexivity|].
    rewrite drop_S.
    change (String c (String.append (take n s) (drop n s)) = String c s).
    now rewrite IH.
Qed.

Lemma length_take n s : n <= String.length s -> String.length (take n s) = n.
Proof.
  revert s. unfold take. induction n as [|n IH]; intros s H.
  - now destruct s.
  - destruct s as [|c s]; simpl in *; [lia|]. rewrite IH; lia.
Qed.

Lemma length_drop n s : String.length (drop n s) = String.length s - n.
Proof.
  revert s. induction n as [|n IH]; intros s.
  - rewrite drop_0. lia.
  - destruct s as [|c s]; [reflexivity|]. rewrite drop_S. simpl. apply IH.
Qed.

(** The segments and the remainder are consecutive pieces of the digits. *)
Lemma splitSegments_spec seglen depth s :
  seglen * depth <= String.length s ->
  let '(segs, rest) := splitSegments seglen depth s in
  length segs = depth /\
  Forall (fun seg => String.length seg = seglen) segs /\
  fold_right String.append rest segs = s.
Proof.
  revert s. induction depth as [|d IH]; intros s H; simpl.
  - auto.
  - specialize (IH (drop seglen s)).
    destruct (splitSegments seglen d (drop seglen s)) as [segs rest].
    destruct IH as (Hlen & Hall & Hcat); [rewrite length_drop; nia|].
    split; [simpl; congruence|]. split.
    + constructor; [apply length_take; nia|assumption].
    + simpl. rewrite Hcat. apply take_drop.
Qed.

End AddresserFacts.

Lemma splitSegments_S seglen d s :
  splitSegments seglen (S d) s
  = (take seglen s :: fst (splitSegments seglen d (drop seglen s)),
     snd (splitSegments seglen d (drop seglen s))).
Proof. simpl. now destruct (splitSegments seglen d (drop seglen s)). Qed.

Lemma take_0 s : take 0 s = "".
Proof. now destruct s. Qed.

Lemma take_S c s n : take (S n) (String c s) = String c (take n s).
Proof. reflexivity. Qed.

Lemma concat_cons_cons sep (x y : string) (l : list string) :
  String.concat sep (x :: y :: l)
  = String.append x (String.append sep (String.concat sep (y :: l))).
Proof. reflexivity. Qed.

Lemma concat_cons_snoc sep (x : string) (l : list string) (z : string) :
  String.concat sep (x :: l ++ [z])
  = String.append x (String.append sep (String.concat sep (l ++ [z]))).
Proof. destruct l; reflexivity. Qed.

Lemma hexDigits_0x s : hexDigits (String "0" (String "x" s)) = s.
Proof.
  unfold hexDigits.
  replace (String.prefix "0x" (String "0" (String "x" s))) with true
    by (now destruct s).
  now rewrite !drop_S, drop_0.
Qed.

Lemma substring_drop m n k (s : string) :
  String.substring m n (drop k s) = String.substring (k + m) n s.
Proof.
  revert s. induction k as [|k IH]; intros s.
  - now rewrite drop_0.
  - destruct s as [|c s].
    + now destruct m, n.
    + rewrite drop_S. apply IH.
Qed.

(** The segments are the consecutive pieces of the digits, from the left. *)
Lemma splitSegments_fst seglen depth (s : string) :
  fst (splitSegments seglen depth s)
  = map (fun i => String.substring (seglen * i) seglen s) (seq 0 depth).
Proof.
  revert s. induction depth as [|d IH]; intros s; [reflexivity|].
  rewrite splitSegments_S. cbn [fst seq map]. f_equal.
  - now rewrite Nat.mul_0_r.
  - rewrite IH, <- seq_shift, map_map. apply map_ext. intros i.
    rewrite substring_drop. f_equal. lia.
Qed.

Lemma hexDigits_plain (contentHash : string) :
  String.prefix "0x" contentHash = false -> hexDigits contentHash = contentHash.
Proof. unfold hexDigits. now intros ->. Qed.

(** C4. For every chain id and content hash, the derived key is the chain
    prefix, then [depth] successive segments of two characters of the hash
    (the characters [2i] and [2i+1] of the hash without its [0x], for [i]
    below [depth]), then the whole hash without its [0x] followed by [.txt],
    joined by [/]; a hash that does not begin with [0x] is cut the same way
    from its first character.  So the key of a hash [0xaa11...] begins with
    the chain prefix and [/aa/11/], and the key of [0xaa11] at depth 2 is the
    chain prefix followed by [/aa/11/aa11.txt]. *)
Theorem deriveKey_shape (chainPrefix : Z -> string) (depth : nat) (chainId : Z) :
  (forall digits,
     deriveKey chainPrefix 2 depth chainId (String.append "0x" digits)
     = String.concat "/"
         (chainPrefix chainId
            :: map (fun i => String.substring (2 * i) 2 digits) (seq 0 depth)
            ++ [String.append digits ".txt"])) /\
  (forall contentHash,
     String.prefix "0x" contentHash = false ->
     deriveKey chainPrefix 2 depth chainId contentHash
     = String.concat "/"
         (chainPrefix chainId
            :: map (fun i => String.substring (2 * i) 2 contentHash) (seq 0 depth)
            ++ [String.append contentHash ".txt"])) /\
  (forall tail d, exists rest,
     deriveKey chainPrefix 2 (S (S d)) chainId (String.append "0xaa11" tail)
     = String.append (chainPrefix chainId) (String.append "/aa/11/" rest)) /\
  deriveKey chainPrefix 2 2 chainId "0xaa11"
  = String.append (chainPrefix chainId) "/aa/11/aa11.txt".
Proof.
  assert (H0x : forall depth' digits,
             deriveKey chainPrefix 2 depth' chainId (String.append "0x" digits)
             = String.concat "/"
                 (chainPrefix chainId
                    :: map (fun i => String.substring (2 * i) 2 digits) (seq 0 depth')
                    ++ [String.append digits ".txt"])).
  { intros depth' digits. unfold deriveKey.
    change (String.append "0x" digits) with (String "0" (String "x" digits)).
    now rewrite hexDigits_0x, splitSegments_fst. }
  split; [apply H0x|]. split; [|split].
  - intros contentHash Hplain. unfold deriveKey.
    now rewrite (hexDigits_plain _ Hplain), splitSegments_fst.
  - intros tail d.
    change (String.append "0xaa11" tail) with (String.append "0x" (String.append "aa11" tail)).
    rewrite H0x.
    exists (String.concat "/"
              (map (fun i => String.substring (2 * i) 2 (String.append "aa11" tail)) (seq 2 d)
               ++ [String.append (String.append "aa11" tail) ".txt"])).
    cbn [seq map app].
    rewrite concat_cons_cons, concat_cons_cons.
    change (String.substring (2 * 0) 2 (String.append "aa11" tail)) with "aa".
    replace (String.substring (2 * 1) 2 (String.append "aa11" tail)) with "11"
      by (now destruct tail).
    destruct (map (fun i => String.substring (2 * i) 2 (String.append "aa11" tail)) (seq 2 d)
              ++ [String.append (String.append "aa11" tail) ".txt"]) as [|x l] eqn:E.
    + now destruct (map (fun i => String.substring (2 * i) 2 (String.append "aa11" tail))
                      (seq 2 d)).
    + reflexivity.
  - change "0xaa11" with (String.append "0x" "aa11"). rewrite H0x.
    cbn [seq map app]. now rewrite !concat_cons_cons.
Qed.

(** C4 at the chain id of the [storeBlob] test of GoogleStorage.test.ts and
    the hash whose digits its recorded file name holds, three segments deep:
    the derived key is the file name that the test records. *)
Lemma deriveKey_shape_witness :
  deriveKey Fixtures.decimal 2 3 Fixtures.TEST_CHAIN_ID
    (String.append "0x" Fixtures.TEST_DIGITS)
  = Fixtures.TEST_FILE.
Proof.
  rewrite (proj1 (deriveKey_shape Fixtures.decimal 3 Fixtures.TEST_CHAIN_ID)).
  reflexivity.
Defined.

(** C4 as the specification words it, with the remainder of the hash as the
    last component, fails at the input of the [storeBlob] test: the key would
    end with [c880...c174], the digits that the three segments leave, where
    the file name that the test records ends with all the digits and
    [.txt]. *)
Lemma key_ends_with_remainder_fails :
  Fixtures.TEST_FILE
  = String.append "70118930558/01/00/ea/" (String.append Fixtures.TEST_DIGITS ".txt") /\
  deriveKeyWithRemainder Fixtures.decimal 2 3 Fixtures.TEST_CHAIN_ID
    (String.append "0x" Fixtures.TEST_DIGITS)
  = "70118930558/01/00/ea/c880c712dba4346c88ab564fa1b79024106f78f732cca49d8a68e4c174" /\
  deriveKeyWithRemainder Fixtures.decimal 2 3 Fixtures.TEST_CHAIN_ID
    (String.append "0x" Fixtures.TEST_DIGITS)
  <> Fixtures.TEST_FILE /\
  ~ Contract.key_ends_with_remainder.
Proof.
  split; [reflexivity|]. split; [reflexivity|]. split.
  - vm_compute. discriminate.
  - intros H.
    specialize (H Fixtures.decimal 3 Fixtures.TEST_CHAIN_ID
                  (String.append "0x" Fixtures.TEST_DIGITS)).
    vm_compute in H. discriminate H.
Qed.

(** ** DedupFilter: the partition of the candidates *)

Section DedupFacts.

Context {A : Type} (key : A -> string).
Implicit Types (candidates : list A) (k : KnownLookup).

Lemma partitionBy_new candidates k c :
  In c (new (snd (partitionBy key candidates k))) <->
  In c candidates /\ key c ∉ bulkContains k (map key candidates).
Proof.
  destruct candidates as [|c0 cs]; [simpl; tauto|].
  unfold partitionBy. cbn [snd new]. rewrite filter_In, negb_true_iff, bool_decide_eq_false.
  tauto.
Qed.

Lemma partitionBy_existing candidates k c :
  In c (existing (snd (partitionBy key candidates k))) <->
  In c candidates /\ key c ∈ bulkContains k (map key candidates).
Proof.
  destruct candidates as [|c0 cs]; [simpl; tauto|].
  unfold partitionBy. cbn [snd existing]. rewrite filter_In, bool_decide_eq_true.
  tauto.
Qed.

(** The shape of the [new] side: the candidates that the one bulk answer
    does not hold, in their input order. *)
Lemma partitionBy_new_filter candidates k :
  new (snd (partitionBy key candidates k))
  = List.filter
      (fun c => negb (bool_decide (key c ∈ bulkContains k (map key candidates))))
      candidates.
Proof. now destruct candidates. Qed.

Lemma partitionBy_trace candidates k :
  fst (partitionBy key candidates k)
  = match candidates with [] => [] | _ :: _ => [EvBulkContains (map key candidates)] end.
Proof. now destruct candidates. Qed.

Lemma partitionBy_all_known candidates k :
  (forall c, In c candidates -> key c ∈ bulkContains k (map key candidates)) ->
  new (snd (partitionBy key candidates k)) = [].
Proof.
  intros H. destruct (new (snd (partitionBy key candidates k))) as [|c l] eqn:E; [reflexivity|].
  assert (Hc : In c (new (snd (partitionBy key candidates k)))) by (rewrite E; now left).
  apply partitionBy_new in Hc as [Hin Hnot]. now apply H in Hin.
Qed.

End DedupFacts.

Lemma count_occ_filter_split {A} (dec : forall x y : A, {x = y} + {x <> y})
    (f : A -> bool) (l : list A) (x : A) :
  count_occ dec l x
  = count_occ dec (List.filter (fun c => negb (f c)) l) x + count_occ dec (List.filter f l) x.
Proof.
  induction l as [|a l IH]; simpl; [reflexivity|].
  destruct (f a); simpl; destruct (dec a x); lia.
Qed.

(** C6. For all candidates C and known hashes K, the two outputs of the
    partition together hold exactly the candidates and share none: as sets
    their union is C and they are disjoint, and every candidate occurs in
    exactly one of them, as often as in C. *)
Theorem partition_union_disjoint (C : list string) (K : gset string) :
  let p := snd (partition C (lookupOf K)) in
  (list_to_set (new p) ∪ list_to_set (existing p) : gset string) = list_to_set C /\
  (list_to_set (new p) : gset string) ## list_to_set (existing p) /\
  (forall h, count_occ string_dec C h
             = count_occ string_dec (new p) h + count_occ string_dec (existing p) h) /\
  (forall h, In h (existing p) <-> In h C /\ h ∈ K).
Proof.
  intros p.
  assert (Hnew : forall h, h ∈ new p <-> h ∈ C /\ h ∉ bulkContains (lookupOf K) C).
  { intros h. rewrite !list_elem_of_In. subst p. unfold partition.
    rewrite partitionBy_new, map_id. reflexivity. }
  assert (Hex : forall h, h ∈ existing p <-> h ∈ C /\ h ∈ bulkContains (lookupOf K) C).
  { intros h. rewrite !list_elem_of_In. subst p. unfold partition.
    rewrite partitionBy_existing, map_id. reflexivity. }
  split; [|split; [|split]].
  - apply set_eq. intros h. rewrite elem_of_union, !elem_of_list_to_set, Hnew, Hex.
    destruct (decide (h ∈ bulkContains (lookupOf K) C)); tauto.
  - intros h. rewrite !elem_of_list_to_set, Hnew, Hex. tauto.
  - intros h. subst p. destruct C as [|c C']; [reflexivity|].
    apply count_occ_filter_split.
  - intros h. rewrite <- !list_elem_of_In, Hex. simpl.
    rewrite elem_of_intersection, elem_of_list_to_set. tauto.
Qed.

(** C7. For the empty candidate sequence the partition returns two empty
    sequences and its trace is empty: the lookup is not invoked; and the empty
    sequence is the only one for which it is not. *)
Theorem partition_empty (k : KnownLookup) :
  snd (partition [] k) = {| new := []; existing := [] |} /\
  fst (partition [] k) = [] /\
  (forall C, lookups (fst (partition C k)) = [] <-> C = []).
Proof.
  split; [reflexivity|]. split; [reflexivity|].
  intros C. unfold partition. rewrite partitionBy_trace.
  destruct C as [|c C]; simpl; split; intros H; try reflexivity; discriminate H.
Qed.

(** ** The [index] mutation *)

Section IndexFacts.

Variable BUCKET_NAME : string.
Variable buildGoogleStorageUri : string -> string.
Variable calculateBlobSize : string -> Z.
Variable getUniqueAddressesFromTxs : World -> list TransactionInput -> UniqueAddresses.

Local Abbreviation uploadStage := (Indexer.uploadStage BUCKET_NAME buildGoogleStorageUri calculateBlobSize getUniqueAddressesFromTxs).
Local Abbreviation index := (Indexer.index BUCKET_NAME buildGoogleStorageUri calculateBlobSize getUniqueAddressesFromTxs).
Local Abbreviation uploadedBlobs := (Indexer.uploadedBlobs BUCKET_NAME buildGoogleStorageUri calculateBlobSize getUniqueAddressesFromTxs).
Local Abbreviation writesOf := (Indexer.writesOf BUCKET_NAME buildGoogleStorageUri).
Local Abbreviation writeFailures := (Indexer.writeFailures BUCKET_NAME buildGoogleStorageUri).
Local Abbreviation timedFailures := (Indexer.timedFailures BUCKET_NAME buildGoogleStorageUri).
Local Abbreviation uploads := (Indexer.uploads BUCKET_NAME buildGoogleStorageUri calculateBlobSize).
Local Abbreviation recordOf := (Indexer.recordOf buildGoogleStorageUri calculateBlobSize).
Local Abbreviation key b := (buildGoogleStorageUri (versionedHash b)).

Lemma index_stopped w input :
  ~ PostageCheck w ->
  trace (index w input) = [EvGetAllPostageBatch] /\
  exists e, result (index w input) = Rejected e /\ uploadedBlobs w input = Rejected e.
Proof.
  intros Hno. rewrite index_of_uploadStage. unfold Indexer.uploadedBlobs.
  destruct (getAllPostageBatch w) as [[|batch0 rest]|e] eqn:Hp.
  - rewrite uploadStage_no_postage by now rewrite Hp. simpl; eauto.
  - destruct (batchID batch0) as [batchId|] eqn:Hb.
    + exfalso. apply Hno. econstructor; eauto.
    + rewrite uploadStage_no_postage by now rewrite Hp. simpl; eauto.
  - unfold Indexer.uploadStage, call, bind. rewrite Hp. simpl; eauto.
Qed.

Lemma postage_dec w : PostageCheck w \/ ~ PostageCheck w.
Proof.
  destruct (getAllPostageBatch w) as [[|batch0 rest]|e] eqn:Hp;
    try (right; intros [? ? ? H ?]; congruence).
  destruct (batchID batch0) as [batchId|] eqn:Hb.
  - left. econstructor; eauto.
  - right. intros [? ? ? H H']. congruence.
Qed.

Lemma writes_app tr tr' : writes (tr ++ tr') = writes tr ++ writes tr'.
Proof. apply List.filter_app. Qed.

Lemma writes_writesOf batchId newBlobs :
  writes (writesOf batchId newBlobs) = writesOf batchId newBlobs.
Proof. induction newBlobs as [|b bs IH]; simpl; [reflexivity|]. now rewrite IH. Qed.

Lemma writes_partitionBy {A} (f : A -> string) cs k : writes (fst (partitionBy f cs k)) = [].
Proof. now destruct cs. Qed.

Lemma persisted_app tr tr' : persisted (tr ++ tr') = persisted tr ++ persisted tr'.
Proof. apply flat_map_app. Qed.

Lemma persisted_writesOf batchId newBlobs : persisted (writesOf batchId newBlobs) = [].
Proof. induction newBlobs as [|b bs IH]; simpl; [reflexivity|]. exact IH. Qed.

Lemma transactions_of_writesOf batchId newBlobs :
  transactions_of (writesOf batchId newBlobs) = [].
Proof. induction newBlobs as [|b bs IH]; simpl; [reflexivity|]. exact IH. Qed.

Lemma persisted_partitionBy {A} (f : A -> string) cs k :
  persisted (fst (partitionBy f cs k)) = [].
Proof. now destruct cs. Qed.

(** The trace of the upload stage keeps no record and its writes are those
    of the new blobs. *)
Lemma uploadStage_trace w input batch0 rest batchId :
  getAllPostageBatch w = Resolved (batch0 :: rest) ->
  batchID batch0 = Some batchId ->
  writes (trace (uploadStage w input)) = writesOf batchId (newBlobsOf w input) /\
  persisted (trace (uploadStage w input)) = [].
Proof.
  intros Hp Hb. destruct (reads_dec w input) as [Hr|[e He]].
  - rewrite (uploadStage_postage _ _ _ _ _ _ _ _ _ Hp Hb Hr).
    cbn [trace fst]. change (?x :: ?l ++ ?l') with ([x] ++ l ++ l').
    rewrite !writes_app, !persisted_app, writes_partitionBy, writes_writesOf,
      persisted_partitionBy, persisted_writesOf.
    split; reflexivity.
  - rewrite (uploadStage_reads_rejected _ _ _ _ _ _ _ _ _ _ Hp Hb He),
      (newBlobsOf_rejected _ _ _ He).
    cbn [trace fst]. change (?x :: ?l) with ([x] ++ l).
    rewrite !writes_app, !persisted_app, writes_partitionBy, persisted_partitionBy.
    split; reflexivity.
Qed.

Lemma index_writes w input :
  writes (trace (index w input)) = writes (trace (uploadStage w input)).
Proof.
  rewrite index_of_uploadStage.
  destruct (uploadStage w input) as [tr [u|e]]; cbn [trace fst]; [|reflexivity].
  rewrite writes_app. simpl. apply app_nil_r.
Qed.

Lemma index_rejected_by_stage w input e :
  uploadedBlobs w input = Rejected e ->
  result (index w input) = Rejected e /\
  trace (index w input) = trace (uploadStage w input).
Proof.
  unfold Indexer.uploadedBlobs. rewrite index_of_uploadStage.
  destruct (uploadStage w input) as [tr [u|e']]; simpl; [intros H; discriminate H|].
  intros H; inversion H; auto.
Qed.

Lemma uploadedBlobs_postage w input batch0 rest batchId :
  getAllPostageBatch w = Resolved (batch0 :: rest) ->
  batchID batch0 = Some batchId ->
  ReadsResolve w input ->
  uploadedBlobs w input = outcome (Promise.all (uploads w batchId (newBlobsOf w input))).
Proof.
  intros Hp Hb Hr. unfold Indexer.uploadedBlobs.
  rewrite (uploadStage_postage _ _ _ _ _ _ _ _ _ Hp Hb Hr). cbn [result snd].
  now destruct (outcome _).
Qed.

Lemma uploadedBlobs_reads_rejected w input batch0 rest batchId e :
  getAllPostageBatch w = Resolved (batch0 :: rest) ->
  batchID batch0 = Some batchId ->
  stepTwo w input = Rejected e ->
  uploadedBlobs w input = Rejected e /\
  index w input
  = (EvGetAllPostageBatch :: fst (partitionBy versionedHash (blobs input) (knownLookup w)),
     Rejected e).
Proof.
  intros Hp Hb He. unfold Indexer.uploadedBlobs.
  rewrite index_of_uploadStage, (uploadStage_reads_rejected _ _ _ _ _ _ _ _ _ _ Hp Hb He).
  split; reflexivity.
Qed.

Lemma uploadedBlobs_resolved_reads w input records :
  uploadedBlobs w input = Resolved records -> PostageCheck w -> ReadsResolve w input.
Proof.
  intros Hup [batch0 rest batchId Hp Hb].
  destruct (reads_dec w input) as [Hr|[e He]]; [exact Hr|].
  destruct (uploadedBlobs_reads_rejected w input _ _ _ e Hp Hb He) as [Hrej _].
  congruence.
Qed.

Lemma writeFailures_In w batchId newBlobs b :
  In b newBlobs -> writeFailures w batchId [b] <> [] ->
  writeFailures w batchId newBlobs <> [].
Proof.
  induction newBlobs as [|b' bs IH]; [contradiction|].
  intros [->|Hin] Hb; rewrite writeFailures_cons.
  - destruct (writeFailures w batchId [b]); [contradiction|simpl; discriminate].
  - specialize (IH Hin Hb). destruct (writeFailures w batchId bs); [contradiction|].
    now destruct (writeFailures w batchId [b']).
Qed.

(** C2. For every non-empty candidate set, if the content network reports
    no postage batch, [index] fails with the error of its postage check and
    no write is issued on any backend. *)
Theorem no_postage_fails_before_writes w input :
  blobs input <> [] ->
  getAllPostageBatch w = Resolved [] ->
  result (index w input) = Rejected NO_POSTAGE /\
  uploadedBlobs w input = Rejected NO_POSTAGE /\
  writes (trace (index w input)) = [].
Proof.
  intros _ Hp. unfold Indexer.uploadedBlobs.
  rewrite index_of_uploadStage, uploadStage_no_postage by now rewrite Hp.
  repeat split.
Qed.

(** C10. The postage check comes first and does not depend on the
    candidates: when the content network reports no postage batch, [index]
    fails with the error of the check whatever the request holds, an empty
    blob list included, having issued the postage query only: no lookup, no
    write, no transaction, and nothing is persisted. *)
Theorem postage_check_unconditional w input :
  getAllPostageBatch w = Resolved [] ->
  index w input = ([EvGetAllPostageBatch], Rejected NO_POSTAGE) /\
  lookups (trace (index w input)) = [] /\
  writes (trace (index w input)) = [] /\
  transactions_of (trace (index w input)) = [] /\
  persisted (trace (index w input)) = [].
Proof.
  intros Hp.
  assert (H : index w input = ([EvGetAllPostageBatch], Rejected NO_POSTAGE)).
  { rewrite index_of_uploadStage, uploadStage_no_postage by now rewrite Hp. reflexivity. }
  rewrite H. repeat split.
Qed.

Lemma keys_writesOf batchId newBlobs :
  saveKeys (writesOf batchId newBlobs) = map (fun b => key b) newBlobs /\
  uploadKeys (writesOf batchId newBlobs) = map (fun b => key b) newBlobs.
Proof.
  induction newBlobs as [|b bs [IH1 IH2]]; simpl; [split; reflexivity|].
  now rewrite IH1, IH2.
Qed.

Lemma saveKeys_writes tr : saveKeys (writes tr) = saveKeys tr.
Proof.
  induction tr as [|ev tr IH]; [reflexivity|].
  destruct ev; simpl; rewrite ?IH; reflexivity.
Qed.

Lemma uploadKeys_writes tr : uploadKeys (writes tr) = uploadKeys tr.
Proof.
  induction tr as [|ev tr IH]; [reflexivity|].
  destruct ev; simpl; rewrite ?IH; reflexivity.
Qed.

(** C5. Every backend is given the same key for a new blob: the writes of
    a run are, for each new blob in turn, a save to the bucket and an upload
    to Swarm that both carry [buildGoogleStorageUri] of the blob's versioned
    hash, so the keys of the saves and the names of the uploads are the same
    sequence. *)
Theorem same_key_for_every_backend w input :
  saveKeys (trace (index w input)) = uploadKeys (trace (index w input)) /\
  (forall batch0 rest batchId,
      getAllPostageBatch w = Resolved (batch0 :: rest) ->
      batchID batch0 = Some batchId ->
      writes (trace (index w input))
      = flat_map (fun b =>
          [EvSave BUCKET_NAME (buildGoogleStorageUri (versionedHash b)) (data b);
           EvUploadFile batchId (data b) (buildGoogleStorageUri (versionedHash b))
             true "text/plain"]) (newBlobsOf w input) /\
      saveKeys (trace (index w input))
      = map (fun b => buildGoogleStorageUri (versionedHash b)) (newBlobsOf w input) /\
      uploadKeys (trace (index w input))
      = map (fun b => buildGoogleStorageUri (versionedHash b)) (newBlobsOf w input)).
Proof.
  assert (Hfound : forall batch0 rest batchId,
             getAllPostageBatch w = Resolved (batch0 :: rest) ->
             batchID batch0 = Some batchId ->
             writes (trace (index w input)) = writesOf batchId (newBlobsOf w input)).
  { intros batch0 rest batchId Hp Hb. rewrite index_writes.
    now destruct (uploadStage_trace w input batch0 rest batchId Hp Hb). }
  split.
  - destruct (postage_dec w) as [[batch0 rest batchId Hp Hb]|Hno].
    + rewrite <- saveKeys_writes, <- uploadKeys_writes, (Hfound _ _ _ Hp Hb).
      destruct (keys_writesOf batchId (newBlobsOf w input)) as [-> ->]. reflexivity.
    + destruct (index_stopped w input Hno) as [-> _]. reflexivity.
  - intros batch0 rest batchId Hp Hb.
    rewrite <- saveKeys_writes, <- uploadKeys_writes, (Hfound _ _ _ Hp Hb).
    destruct (keys_writesOf batchId (newBlobsOf w input)) as [-> ->]. repeat split.
Qed.

Lemma failed_write_rejects w input batch0 rest batchId b :
  getAllPostageBatch w = Resolved (batch0 :: rest) ->
  batchID batch0 = Some batchId ->
  In b (newBlobsOf w input) ->
  writeFailures w batchId [b] <> [] ->
  exists e,
    In e (writeFailures w batchId (newBlobsOf w input)) /\
    (exists t,
        In (t, e) (timedFailures w batchId (newBlobsOf w input)) /\
        forall t' e', In (t', e') (timedFailures w batchId (newBlobsOf w input)) -> t <= t') /\
    uploadedBlobs w input = Rejected e /\
    result (index w input) = Rejected e /\
    writes (trace (index w input)) = writesOf batchId (newBlobsOf w input) /\
    transactions_of (trace (index w input)) = [] /\
    persisted (trace (index w input)) = [].
Proof.
  intros Hp Hb Hin Hfail.
  pose proof (newBlobs_In_reads w input b Hin) as Hr.
  pose proof (writeFailures_In w batchId _ b Hin Hfail) as Hne.
  apply (uploads_rejections_nonempty _ _ calculateBlobSize) in Hne.
  destruct (all_rejects _ Hne) as [e He].
  assert (Hup : uploadedBlobs w input = Rejected e)
    by now rewrite (uploadedBlobs_postage w input _ _ _ Hp Hb Hr).
  destruct (index_rejected_by_stage w input e Hup) as [Hres Htr].
  destruct (uploadStage_trace w input _ _ _ Hp Hb) as [Hw Hpers].
  exists e. split; [|split; [exact (uploads_rejected_earliest _ _ calculateBlobSize _ _ _ _ He)|]].
  { apply (uploads_rejections_incl _ _ calculateBlobSize).
    exact (all_rejected _ _ He). }
  repeat split; try assumption.
  - now rewrite Htr.
  - rewrite Htr, (uploadStage_postage _ _ _ _ _ _ _ _ _ Hp Hb Hr). cbn [trace fst].
    unfold transactions_of. change (?x :: ?l ++ ?l') with ([x] ++ l ++ l').
    rewrite !List.filter_app.
    fold (transactions_of (writesOf batchId (newBlobsOf w input))).
    rewrite transactions_of_writesOf, partitionBy_trace.
    now destruct (blobs input).
  - now rewrite Htr.
Qed.


Lemma index_resolved_reads w input :
  result (index w input) = Resolved tt -> ReadsResolve w input.
Proof.
  intros Hres. destruct (reads_dec w input) as [Hr|[e He]]; [exact Hr|].
  destruct (postage_dec w) as [[batch0 rest batchId Hp Hb]|Hno].
  - destruct (uploadedBlobs_reads_rejected w input _ _ _ e Hp Hb He) as [_ Hidx].
    rewrite Hidx in Hres. discriminate Hres.
  - destruct (index_stopped w input Hno) as (_ & e' & He' & _). congruence.
Qed.

Lemma index_resolved_inv w input :
  result (index w input) = Resolved tt ->
  exists batch0 rest batchId records,
    getAllPostageBatch w = Resolved (batch0 :: rest) /\
    batchID batch0 = Some batchId /\
    outcome (Promise.all (uploads w batchId (newBlobsOf w input))) = Resolved records /\
    exists ops,
      createBlobsData ops = records /\
      trace (index w input) = trace (uploadStage w input) ++ [EvTransaction ops].
Proof.
  intros Hres. pose proof (index_resolved_reads w input Hres) as Hr.
  destruct (postage_dec w) as [[batch0 rest batchId Hp Hb]|Hno].
  - exists batch0, rest, batchId.
    rewrite index_of_uploadStage, (uploadStage_postage _ _ _ _ _ _ _ _ _ Hp Hb Hr) in *.
    destruct (outcome (Promise.all (uploads w batchId (newBlobsOf w input))))
      as [records|e]; [|discriminate Hres].
    exists records. repeat split; try assumption.
    eexists. split; [|reflexivity]. reflexivity.
  - destruct (index_stopped w input Hno) as (_ & e & He & _). congruence.
Qed.

Lemma recordOf_hashes newBlobs records :
  Forall2 (fun b r => exists reference, r = recordOf b reference) newBlobs records ->
  map rec_versionedHash records = map versionedHash newBlobs /\
  map rec_id records = map versionedHash newBlobs /\
  length records = length newBlobs.
Proof.
  induction 1 as [|b r bs rs [reference ->] _ (IH1 & IH2 & IH3)]; simpl; [auto|].
  now rewrite IH1, IH2, IH3.
Qed.

(** C1, as the code has it. If a write of a new blob fails on any one
    backend, [index] fails with the reason of one failed write of the batch,
    one that rejects earliest: a single error and no aggregate of them,
    although every write of the batch has been issued; no transaction is run
    and no record is kept, not even for the blobs whose writes all
    succeeded. *)
Theorem write_failure_fails_batch w input batch0 rest batchId b :
  getAllPostageBatch w = Resolved (batch0 :: rest) ->
  batchID batch0 = Some batchId ->
  In b (newBlobsOf w input) ->
  writeFailures w batchId [b] <> [] ->
  exists e,
    In e (writeFailures w batchId (newBlobsOf w input)) /\
    (exists t,
        In (t, e) (timedFailures w batchId (newBlobsOf w input)) /\
        forall t' e', In (t', e') (timedFailures w batchId (newBlobsOf w input)) -> t <= t') /\
    uploadedBlobs w input = Rejected e /\
    result (index w input) = Rejected e /\
    writes (trace (index w input)) = writesOf batchId (newBlobsOf w input) /\
    transactions_of (trace (index w input)) = [] /\
    persisted (trace (index w input)) = [].
Proof. apply failed_write_rejects. Qed.

(** C3, as the code has it. Before any write [index] checks the content
    network only: whenever its postage check fails (the postage query is
    rejected, or reports no batch, or the first batch has no id), [index]
    fails with the error of the check, having issued nothing but the query;
    a failed health check of the content network is such a case. The object
    store is not checked: with postage at hand and a new blob to upload, an
    unhealthy object store shows only once the writes have been issued, as a
    rejected run. *)
Theorem postage_checked_before_writes w input :
  (~ PostageCheck w ->
   result (index w input)
   = Rejected (match getAllPostageBatch w with
               | Rejected e => e
               | Resolved _ => NO_POSTAGE
               end) /\
   trace (index w input) = [EvGetAllPostageBatch] /\
   writes (trace (index w input)) = []) /\
  (forall e,
      healthCheck BUCKET_NAME w ContentNetworkStore = Rejected e ->
      ~ PostageCheck w /\
      result (index w input) = Rejected e /\
      trace (index w input) = [EvGetAllPostageBatch] /\
      writes (trace (index w input)) = []) /\
  (forall e batch0 rest batchId,
      healthCheck BUCKET_NAME w ObjectStore = Rejected e ->
      getAllPostageBatch w = Resolved (batch0 :: rest) ->
      batchID batch0 = Some batchId ->
      newBlobsOf w input <> [] ->
      writes (trace (index w input)) = writesOf batchId (newBlobsOf w input) /\
      writes (trace (index w input)) <> [] /\
      exists e', result (index w input) = Rejected e').
Proof.
  assert (Hstop : ~ PostageCheck w ->
            index w input
            = ([EvGetAllPostageBatch],
               Rejected (match getAllPostageBatch w with
                         | Rejected e => e
                         | Resolved _ => NO_POSTAGE
                         end))).
  { intros Hno. rewrite index_of_uploadStage.
    destruct (getAllPostageBatch w) as [[|batch0 rest]|e0] eqn:Hp.
    - rewrite uploadStage_no_postage by now rewrite Hp. reflexivity.
    - destruct (batchID batch0) as [batchId|] eqn:Hb.
      + exfalso. apply Hno. econstructor; eauto.
      + rewrite uploadStage_no_postage by now rewrite Hp. reflexivity.
    - unfold Indexer.uploadStage, call, bind. now rewrite Hp. }
  split; [|split].
  - intros Hno. rewrite (Hstop Hno). repeat split.
  - intros e Hh. simpl in Hh.
    assert (Hno : ~ PostageCheck w).
    { intros [batch0 rest batchId Hp Hb]. rewrite Hp in Hh. discriminate Hh. }
    split; [exact Hno|]. rewrite (Hstop Hno).
    destruct (getAllPostageBatch w) as [[|batch0 rest]|e0]; inversion Hh; subst;
      repeat split.
  - intros e batch0 rest batchId Hh Hp Hb Hnew. simpl in Hh.
    destruct (bucketExists w BUCKET_NAME) eqn:Hbucket; [discriminate Hh|].
    destruct (newBlobsOf w input) as [|b bs] eqn:Hbs; [contradiction|].
    destruct (failed_write_rejects w input batch0 rest batchId b Hp Hb)
      as (e' & _ & _ & _ & Hres & Hw & _).
    + rewrite Hbs. now left.
    + unfold Indexer.writeFailures, reasonOf, save. simpl. rewrite Hbucket. simpl.
      discriminate.
    + rewrite Hw, Hbs. repeat split; [discriminate|eauto].
Qed.

Lemma all_known_no_new_blob w input :
  (forall b, In b (blobs input) ->
     versionedHash b ∈ bulkContains (knownLookup w) (map versionedHash (blobs input))) ->
  newBlobsOf w input = [].
Proof.
  intros Hknown. destruct (reads_dec w input) as [Hr|[e He]].
  - rewrite (newBlobsOf_resolved w input Hr). now apply partitionBy_all_known.
  - exact (newBlobsOf_rejected _ _ _ He).
Qed.

(** C8. For every batch in which the lookup reports every candidate hash as
    known, [index] issues no store operation on any backend and keeps no blob
    record; and with the backends healthy, so that the run gets as far as the
    lookup and past it (the postage check passes and the two reads of step 2
    resolve), the sequence of uploaded records it returns is empty. *)
Theorem all_known_issues_no_write w input :
  (forall b, In b (blobs input) ->
     versionedHash b ∈ bulkContains (knownLookup w) (map versionedHash (blobs input))) ->
  writes (trace (index w input)) = [] /\
  persisted (trace (index w input)) = [] /\
  (PostageCheck w -> ReadsResolve w input -> uploadedBlobs w input = Resolved []).
Proof.
  intros Hknown.
  pose proof (all_known_no_new_blob w input Hknown) as Hnew.
  destruct (postage_dec w) as [[batch0 rest batchId Hp Hb]|Hno].
  - destruct (uploadStage_trace w input _ _ _ Hp Hb) as [Hw Hpers].
    split; [now rewrite index_writes, Hw, Hnew|].
    destruct (reads_dec w input) as [Hr|[e He]].
    + assert (Hup : uploadedBlobs w input = Resolved [])
        by now rewrite (uploadedBlobs_postage w input _ _ _ Hp Hb Hr), Hnew.
      split; [|auto].
      revert Hup Hpers. unfold Indexer.uploadedBlobs. rewrite index_of_uploadStage.
      destruct (uploadStage w input) as [tr [u|e]]; cbn [trace result fst snd];
        [|intros H; discriminate H].
      intros Hu Hpers. inversion Hu as [Hu']. rewrite persisted_app, Hpers. simpl.
      now rewrite Hu'.
    + destruct (uploadedBlobs_reads_rejected w input _ _ _ e Hp Hb He) as [_ Hidx].
      split.
      * rewrite Hidx. cbn [trace fst]. change (?x :: ?l) with ([x] ++ l).
        now rewrite persisted_app, persisted_partitionBy.
      * intros _ Hr. unfold ReadsResolve in Hr. congruence.
  - destruct (index_stopped w input Hno) as [-> _].
    repeat split. intros Hyes. contradiction.
Qed.

(** C9. When [index] succeeds on a batch of N new blobs, the N records it
    persists stand in the order of those blobs, which is their order in the
    request: the i-th record is the record of the i-th new blob. *)
Theorem records_in_input_order w input :
  result (index w input) = Resolved tt ->
  exists records,
    uploadedBlobs w input = Resolved records /\
    persisted (trace (index w input)) = records /\
    Forall2 (fun b r => exists reference, r = recordOf b reference)
      (newBlobsOf w input) records /\
    map rec_versionedHash records = map versionedHash (newBlobsOf w input) /\
    length records = length (newBlobsOf w input) /\
    newBlobsOf w input
    = List.filter
        (fun b => negb (bool_decide
           (versionedHash b ∈ bulkContains (knownLookup w) (map versionedHash (blobs input)))))
        (blobs input).
Proof.
  intros Hres.
  destruct (index_resolved_inv w input Hres)
    as (batch0 & rest & batchId & records & Hp & Hb & Hall & ops & Hops & Htr).
  destruct (uploadStage_trace w input _ _ _ Hp Hb) as [_ Hpers].
  destruct (all_resolved _ _ Hall) as (Hnone & -> & _).
  pose proof (uploads_values _ _ calculateBlobSize w batchId _ Hnone) as Hvals.
  assert (Hrec : Forall2 (fun b r => exists reference, r = recordOf b reference)
                   (newBlobsOf w input) (values (uploads w batchId (newBlobsOf w input)))).
  { eapply Forall2_impl; [exact Hvals|]. intros b r (reference & _ & ->). eauto. }
  destruct (recordOf_hashes _ _ Hrec) as (Hh & _ & Hlen).
  pose proof (index_resolved_reads w input Hres) as Hr.
  exists (values (uploads w batchId (newBlobsOf w input))).
  split; [now rewrite (uploadedBlobs_postage w input _ _ _ Hp Hb Hr)|].
  split; [rewrite Htr, persisted_app, Hpers; simpl; now rewrite Hops, app_nil_r|].
  repeat split; try assumption.
  rewrite (newBlobsOf_resolved w input Hr). apply partitionBy_new_filter.
Qed.

End IndexFacts.

(** ** The theorems at the sample worlds *)

Section Samples.

Import Fixtures.

Local Abbreviation index := (Indexer.index BUCKET uri sizeOf noAddresses).
Local Abbreviation uploadedBlobs := (Indexer.uploadedBlobs BUCKET uri sizeOf noAddresses).
Local Abbreviation writeFailures := (Indexer.writeFailures BUCKET uri).
Local Abbreviation writesOf := (Indexer.writesOf BUCKET uri).
Local Abbreviation timedFailures := (Indexer.timedFailures BUCKET uri).
Local Abbreviation batch := {| batchID := Some "batch-0" |}.

(** Two Swarm uploads fail, each for its own reason; [index] rejects with the
    first reason alone, so its error does not carry the second: the reading
    of C1 with an aggregated error fails. *)
Lemma aggregated_batch_failure_fails :
  writeFailures swarmDown "batch-0" (newBlobsOf swarmDown (request [blobA; blobB]))
  = [ClientError "swarm: upload of hello refused"; ClientError "swarm: no room for world"] /\
  result (index swarmDown (request [blobA; blobB]))
  = Rejected (ClientError "swarm: upload of hello refused") /\
  ~ Contract.aggregated_batch_failure BUCKET uri sizeOf noAddresses.
Proof.
  split; [reflexivity|]. split; [reflexivity|].
  intros H.
  destruct (H swarmDown (request [blobA; blobB]) batch [] "batch-0")
    as (e & Hup & Hall & _); [reflexivity|reflexivity|vm_compute; discriminate|].
  vm_compute in Hup. inversion Hup; subst e.
  vm_compute in Hall. inversion Hall as [|f fs _ Hrest]; subst.
  inversion Hrest as [|f fs [Heq|[]] _]; subst. discriminate Heq.
Qed.

(** C1 where one upload among three blobs fails. *)
Lemma write_failure_fails_batch_witness :
  exists e,
    In e (writeFailures oneUploadFails "batch-0"
            (newBlobsOf oneUploadFails (request [blobA; blobB; blobC]))) /\
    (exists t,
        In (t, e) (timedFailures oneUploadFails "batch-0"
                     (newBlobsOf oneUploadFails (request [blobA; blobB; blobC]))) /\
        forall t' e',
          In (t', e') (timedFailures oneUploadFails "batch-0"
                         (newBlobsOf oneUploadFails (request [blobA; blobB; blobC]))) ->
          t <= t') /\
    uploadedBlobs oneUploadFails (request [blobA; blobB; blobC]) = Rejected e /\
    result (index oneUploadFails (request [blobA; blobB; blobC])) = Rejected e /\
    writes (trace (index oneUploadFails (request [blobA; blobB; blobC])))
    = writesOf "batch-0" (newBlobsOf oneUploadFails (request [blobA; blobB; blobC])) /\
    transactions_of (trace (index oneUploadFails (request [blobA; blobB; blobC]))) = [] /\
    persisted (trace (index oneUploadFails (request [blobA; blobB; blobC]))) = [].
Proof.
  apply (write_failure_fails_batch BUCKET uri sizeOf noAddresses oneUploadFails
           (request [blobA; blobB; blobC]) batch [] "batch-0" blobB).
  - reflexivity.
  - reflexivity.
  - vm_compute. right. left. reflexivity.
  - vm_compute. discriminate.
Defined.

(** C2 at a request with one blob. *)
Lemma no_postage_fails_before_writes_witness :
  blobs (request [blobA]) <> [] /\
  result (index noPostage (request [blobA])) = Rejected NO_POSTAGE /\
  uploadedBlobs noPostage (request [blobA]) = Rejected NO_POSTAGE /\
  writes (trace (index noPostage (request [blobA]))) = [].
Proof.
  split; [discriminate|].
  apply (no_postage_fails_before_writes BUCKET uri sizeOf noAddresses noPostage
           (request [blobA])); [discriminate|reflexivity].
Defined.

(** The bucket is missing, so the object store is unhealthy, and yet both
    writes of the blob are issued: the reading of C3 with a health check of
    every backend fails. *)
Lemma health_checked_before_writes_fails :
  healthCheck BUCKET noBucket ObjectStore = Rejected BUCKET_MISSING /\
  writes (trace (index noBucket (request [blobA])))
  = [EvSave BUCKET "1/aa/11/aa11.txt" "hello";
     EvUploadFile "batch-0" "hello" "1/aa/11/aa11.txt" true "text/plain"] /\
  ~ Contract.health_checked_before_writes BUCKET uri sizeOf noAddresses.
Proof.
  split; [reflexivity|]. split; [reflexivity|].
  intros H.
  destruct (H noBucket (request [blobA]) ObjectStore BUCKET_MISSING eq_refl) as [_ Hw].
  vm_compute in Hw. discriminate Hw.
Qed.

Lemma firstBatchUnusable_stopped : ~ PostageCheck MoreFixtures.firstBatchUnusable.
Proof. intros [batch0 rest batchId Hp Hb]. inversion Hp; subst. discriminate Hb. Defined.

(** C3: a first batch without an id stops the run at the query; a missing
    bucket does not. *)
Lemma postage_checked_before_writes_witness :
  (result (index MoreFixtures.firstBatchUnusable (request [blobA])) = Rejected NO_POSTAGE /\
   trace (index MoreFixtures.firstBatchUnusable (request [blobA])) = [EvGetAllPostageBatch] /\
   writes (trace (index MoreFixtures.firstBatchUnusable (request [blobA]))) = []) /\
  (writes (trace (index noBucket (request [blobA])))
   = writesOf "batch-0" (newBlobsOf noBucket (request [blobA])) /\
   writes (trace (index noBucket (request [blobA]))) <> [] /\
   exists e', result (index noBucket (request [blobA])) = Rejected e').
Proof.
  split.
  - apply (proj1 (postage_checked_before_writes BUCKET uri sizeOf noAddresses
                    MoreFixtures.firstBatchUnusable (request [blobA]))).
    exact firstBatchUnusable_stopped.
  - apply (proj2 (proj2 (postage_checked_before_writes BUCKET uri sizeOf noAddresses noBucket
                           (request [blobA]))) BUCKET_MISSING batch [] "batch-0").
    + reflexivity.
    + reflexivity.
    + reflexivity.
    + vm_compute. discriminate.
Defined.

(** C5 at two new blobs. *)
Lemma same_key_for_every_backend_witness :
  saveKeys (trace (index healthy (request [blobA; blobB]))) = ["1/aa/11/aa11.txt"; "1/bb/22/bb22.txt"] /\
  uploadKeys (trace (index healthy (request [blobA; blobB]))) = ["1/aa/11/aa11.txt"; "1/bb/22/bb22.txt"].
Proof.
  destruct (same_key_for_every_backend BUCKET uri sizeOf noAddresses healthy
              (request [blobA; blobB])) as [_ H].
  destruct (H batch [] "batch-0" eq_refl eq_refl) as (_ & Hs & Hu).
  split; [rewrite Hs|rewrite Hu]; reflexivity.
Defined.

Lemma known_AB :
  forall b, In b (blobs (request [blobA; blobB])) ->
    versionedHash b
    ∈ bulkContains (lookupOf {[ "0xaa11"; "0xbb22" ]})
        (map versionedHash (blobs (request [blobA; blobB]))).
Proof.
  intros b [<-|[<-|[]]]; apply (bool_decide_unpack _); vm_compute; exact I.
Defined.

(** C8 where both candidates are known and postage is at hand. *)
Lemma all_known_issues_no_write_witness :
  writes (trace (index (withKnown {[ "0xaa11"; "0xbb22" ]} healthy) (request [blobA; blobB])))
  = [] /\
  persisted (trace (index (withKnown {[ "0xaa11"; "0xbb22" ]} healthy) (request [blobA; blobB])))
  = [] /\
  uploadedBlobs (withKnown {[ "0xaa11"; "0xbb22" ]} healthy) (request [blobA; blobB])
  = Resolved [].
Proof.
  destruct (all_known_issues_no_write BUCKET uri sizeOf noAddresses
              (withKnown {[ "0xaa11"; "0xbb22" ]} healthy) (request [blobA; blobB]) known_AB)
    as (Hw & Hp & Hup).
  split; [exact Hw|]. split; [exact Hp|].
  apply Hup.
  - exact (postage_found (withKnown {[ "0xaa11"; "0xbb22" ]} healthy) batch [] "batch-0"
             eq_refl eq_refl).
  - vm_compute. reflexivity.
Defined.

(** C9 where the second of three blobs is known. *)
Lemma records_in_input_order_witness :
  result (index (withKnown {[ "0xbb22" ]} healthy) (request [blobA; blobB; blobC]))
  = Resolved tt /\
  exists records,
    persisted (trace (index (withKnown {[ "0xbb22" ]} healthy) (request [blobA; blobB; blobC])))
    = records /\
    map rec_versionedHash records = ["0xaa11"; "0xcc33"].
Proof.
  assert (Hres : result (index (withKnown {[ "0xbb22" ]} healthy)
                           (request [blobA; blobB; blobC])) = Resolved tt)
    by (vm_compute; reflexivity).
  split; [exact Hres|].
  destruct (records_in_input_order BUCKET uri sizeOf noAddresses
              (withKnown {[ "0xbb22" ]} healthy) (request [blobA; blobB; blobC]) Hres)
    as (records & _ & Hp & _ & Hh & _).
  exists records. split; [exact Hp|]. rewrite Hh. reflexivity.
Defined.

(** C10 at the empty blob list. *)
Lemma postage_check_unconditional_witness :
  index noPostage (request []) = ([EvGetAllPostageBatch], Rejected NO_POSTAGE) /\
  lookups (trace (index noPostage (request []))) = [] /\
  writes (trace (index noPostage (request []))) = [] /\
  transactions_of (trace (index noPostage (request []))) = [] /\
  persisted (trace (index noPostage (request []))) = [].
Proof.
  apply (postage_check_unconditional BUCKET uri sizeOf noAddresses noPostage (request [])).
  reflexivity.
Defined.

End Samples.


(** * Further properties of the sources *)

(** ** [index]: the order of its calls and what decides its outcome *)

Section IndexRuns.

Variable BUCKET_NAME : string.
Variable buildGoogleStorageUri : string -> string.
Variable calculateBlobSize : string -> Z.
Variable getUniqueAddressesFromTxs : World -> list TransactionInput -> UniqueAddresses.

Local Abbreviation uploadStage := (Indexer.uploadStage BUCKET_NAME buildGoogleStorageUri calculateBlobSize getUniqueAddressesFromTxs).
Local Abbreviation index := (Indexer.index BUCKET_NAME buildGoogleStorageUri calculateBlobSize getUniqueAddressesFromTxs).
Local Abbreviation uploadedBlobs := (Indexer.uploadedBlobs BUCKET_NAME buildGoogleStorageUri calculateBlobSize getUniqueAddressesFromTxs).
Local Abbreviation writesOf := (Indexer.writesOf BUCKET_NAME buildGoogleStorageUri).
Local Abbreviation writeFailures := (Indexer.writeFailures BUCKET_NAME buildGoogleStorageUri).
Local Abbreviation uploads := (Indexer.uploads BUCKET_NAME buildGoogleStorageUri calculateBlobSize).
Local Abbreviation recordOf := (Indexer.recordOf buildGoogleStorageUri calculateBlobSize).
Local Abbreviation opsOf w input records :=
  (prepareOps input (Z.mul (block_timestamp (block input)) 1000%Z)
     (getUniqueAddressesFromTxs w (transactions input)) records).

(** The whole run of [index] once the postage check has found [batchId] and
    the reads have resolved. *)
Lemma index_postage w input batch0 rest batchId :
  getAllPostageBatch w = Resolved (batch0 :: rest) ->
  batchID batch0 = Some batchId ->
  ReadsResolve w input ->
  index w input =
    match outcome (Promise.all (uploads w batchId (newBlobsOf w input))) with
    | Resolved records =>
        ((EvGetAllPostageBatch
            :: fst (partitionBy versionedHash (blobs input) (knownLookup w))
            ++ writesOf batchId (newBlobsOf w input))
           ++ [EvTransaction (opsOf w input records)],
         transaction w (opsOf w input records))
    | Rejected e =>
        (EvGetAllPostageBatch
           :: fst (partitionBy versionedHash (blobs input) (knownLookup w))
           ++ writesOf batchId (newBlobsOf w input),
         Rejected e)
    end.
Proof.
  intros Hp Hb Hr.
  rewrite index_of_uploadStage, (uploadStage_postage _ _ _ _ _ _ _ _ _ Hp Hb Hr).
  now destruct (outcome _).
Qed.

(** The calls of a run that has passed the postage check, whatever happens
    next. *)
Lemma index_trace_shape w input batch0 rest batchId :
  getAllPostageBatch w = Resolved (batch0 :: rest) ->
  batchID batch0 = Some batchId ->
  exists tx,
    trace (index w input)
    = EvGetAllPostageBatch
        :: fst (partitionBy versionedHash (blobs input) (knownLookup w))
        ++ writesOf batchId (newBlobsOf w input) ++ tx /\
    (tx = [] \/ exists ops, tx = [EvTransaction ops]).
Proof.
  intros Hp Hb. destruct (reads_dec w input) as [Hr|[e He]].
  - rewrite (index_postage w input _ _ _ Hp Hb Hr).
    destruct (outcome _) as [records|e]; cbn [trace fst].
    + eexists. rewrite <- app_comm_cons, <- app_assoc. split; [reflexivity|eauto].
    + exists []. rewrite app_nil_r. auto.
  - destruct (uploadedBlobs_reads_rejected BUCKET_NAME buildGoogleStorageUri
                calculateBlobSize getUniqueAddressesFromTxs w input _ _ _ e Hp Hb He)
      as [_ ->].
    rewrite (newBlobsOf_rejected _ _ _ He). exists []. cbn [trace fst].
    rewrite !app_nil_r. auto.
Qed.

Lemma lookups_writesOf batchId newBlobs : lookups (writesOf batchId newBlobs) = [].
Proof. induction newBlobs as [|b bs IH]; simpl; [reflexivity|]. exact IH. Qed.

Lemma lookups_partitionBy {A} (f : A -> string) cs k :
  lookups (fst (partitionBy f cs k)) = fst (partitionBy f cs k) /\
  transactions_of (fst (partitionBy f cs k)) = [] /\
  length (fst (partitionBy f cs k)) <= 1.
Proof. destruct cs; simpl; repeat split; lia. Qed.

Lemma filter_split_trace (lk wr tx : list Event) :
  lookups lk = lk -> writes lk = [] -> transactions_of lk = [] ->
  lookups wr = [] -> writes wr = wr -> transactions_of wr = [] ->
  lookups tx = [] -> writes tx = [] -> transactions_of tx = tx ->
  lookups (EvGetAllPostageBatch :: lk ++ wr ++ tx) = lk /\
  writes (EvGetAllPostageBatch :: lk ++ wr ++ tx) = wr /\
  transactions_of (EvGetAllPostageBatch :: lk ++ wr ++ tx) = tx.
Proof.
  intros L1 W1 T1 L2 W2 T2 L3 W3 T3.
  unfold lookups, writes, transactions_of in *. simpl.
  rewrite !List.filter_app, L1, W1, T1, L2, W2, T2, L3, W3, T3.
  now rewrite !app_nil_r.
Qed.

(** X1. Every run of [index] issues its calls in one order: the postage
    query first, then the lookup of the known blobs, then the writes, then at
    most one transaction, which is the last call. *)
Theorem index_trace_order w input :
  trace (index w input)
  = EvGetAllPostageBatch
      :: lookups (trace (index w input))
      ++ writes (trace (index w input))
      ++ transactions_of (trace (index w input)) /\
  length (transactions_of (trace (index w input))) <= 1.
Proof.
  destruct (postage_dec w) as [[batch0 rest batchId Hp Hb]|Hno].
  - destruct (index_trace_shape w input _ _ _ Hp Hb) as (tx & -> & Htx).
    destruct (lookups_partitionBy versionedHash (blobs input) (knownLookup w))
      as (L1 & T1 & Hlen).
    pose proof (writes_partitionBy versionedHash (blobs input) (knownLookup w)) as W1.
    pose proof (lookups_writesOf batchId (newBlobsOf w input)) as L2.
    pose proof (writes_writesOf BUCKET_NAME buildGoogleStorageUri batchId (newBlobsOf w input))
      as W2.
    pose proof (transactions_of_writesOf BUCKET_NAME buildGoogleStorageUri batchId
                  (newBlobsOf w input)) as T2.
    assert (Hfilters : lookups tx = [] /\ writes tx = [] /\ transactions_of tx = tx
                       /\ length tx <= 1).
    { destruct Htx as [->|[ops ->]]; simpl; repeat split; lia. }
    destruct Hfilters as (L3 & W3 & T3 & Hone).
    destruct (filter_split_trace _ _ tx L1 W1 T1 L2 W2 T2 L3 W3 T3) as (-> & -> & ->).
    split; [reflexivity|exact Hone].
  - destruct (index_stopped BUCKET_NAME buildGoogleStorageUri calculateBlobSize
                getUniqueAddressesFromTxs w input Hno) as [-> _].
    simpl. repeat split; lia.
Qed.





(** X3. Only the first postage batch counts: when it has no id, [index]
    fails with the postage error whatever the other batches are; when it has
    one, every upload to Swarm is made with that id, pinned and as
    [text/plain], and every save goes to [BUCKET_NAME]. *)
Theorem only_first_batch_used w input batch0 rest :
  getAllPostageBatch w = Resolved (batch0 :: rest) ->
  (batchID batch0 = None ->
   index w input = ([EvGetAllPostageBatch], Rejected NO_POSTAGE)) /\
  (forall batchId, batchID batch0 = Some batchId ->
     Forall (fun ev =>
               match ev with
               | EvUploadFile id _ _ pin contentType =>
                   id = batchId /\ pin = true /\ contentType = "text/plain"
               | EvSave bucket _ _ => bucket = BUCKET_NAME
               | _ => True
               end) (trace (index w input))).
Proof.
  intros Hp. split.
  - intros Hb. rewrite index_of_uploadStage, uploadStage_no_postage; [reflexivity|].
    now rewrite Hp.
  - intros batchId Hb.
    destruct (index_trace_shape w input _ _ _ Hp Hb) as (tx & -> & Htx).
    assert (Hlk : Forall (fun ev =>
               match ev with
               | EvUploadFile id _ _ pin contentType =>
                   id = batchId /\ pin = true /\ contentType = "text/plain"
               | EvSave bucket _ _ => bucket = BUCKET_NAME
               | _ => True
               end) (fst (partitionBy versionedHash (blobs input) (knownLookup w)))).
    { rewrite partitionBy_trace. destruct (blobs input); repeat constructor. }
    assert (Hwr : Forall (fun ev =>
               match ev with
               | EvUploadFile id _ _ pin contentType =>
                   id = batchId /\ pin = true /\ contentType = "text/plain"
               | EvSave bucket _ _ => bucket = BUCKET_NAME
               | _ => True
               end) (writesOf batchId (newBlobsOf w input))).
    { induction (newBlobsOf w input) as [|b bs IH]; simpl; repeat constructor; exact IH. }
    constructor; [exact I|]. apply Forall_app. split; [exact Hlk|].
    apply Forall_app. split; [exact Hwr|].
    destruct Htx as [->|[ops ->]]; repeat constructor.
Qed.

Lemma length_writesOf batchId newBlobs :
  length (writesOf batchId newBlobs) = 2 * length newBlobs.
Proof. induction newBlobs as [|b bs IH]; simpl; [reflexivity|]. rewrite IH. lia. Qed.

Lemma contents_writesOf batchId newBlobs :
  saveContents (writesOf batchId newBlobs) = map data newBlobs /\
  uploadContents (writesOf batchId newBlobs) = map data newBlobs.
Proof.
  induction newBlobs as [|b bs [IH1 IH2]]; simpl; [split; reflexivity|].
  now rewrite IH1, IH2.
Qed.

Lemma saveContents_writes tr : saveContents (writes tr) = saveContents tr.
Proof.
  induction tr as [|ev tr IH]; [reflexivity|].
  destruct ev; simpl; rewrite ?IH; reflexivity.
Qed.

Lemma uploadContents_writes tr : uploadContents (writes tr) = uploadContents tr.
Proof.
  induction tr as [|ev tr IH]; [reflexivity|].
  destruct ev; simpl; rewrite ?IH; reflexivity.
Qed.

(** X4. Both backends are handed the same content: in every run the
    contents of the saves and of the uploads are the same sequence, the
    [data] of the new blobs in their order when the postage check passes; so
    a run issues two writes for each new blob. *)
Theorem same_content_for_every_backend w input :
  saveContents (trace (index w input)) = uploadContents (trace (index w input)) /\
  (PostageCheck w ->
   saveContents (trace (index w input)) = map data (newBlobsOf w input) /\
   length (writes (trace (index w input))) = 2 * length (newBlobsOf w input)).
Proof.
  assert (Hfound : PostageCheck w ->
            exists batchId,
              writes (trace (index w input)) = writesOf batchId (newBlobsOf w input)).
  { intros [batch0 rest batchId Hp Hb]. exists batchId.
    rewrite (index_writes BUCKET_NAME buildGoogleStorageUri calculateBlobSize
               getUniqueAddressesFromTxs).
    now destruct (uploadStage_trace BUCKET_NAME buildGoogleStorageUri calculateBlobSize
                    getUniqueAddressesFromTxs w input batch0 rest batchId Hp Hb). }
  split.
  - rewrite <- saveContents_writes, <- uploadContents_writes.
    destruct (postage_dec w) as [Hyes|Hno].
    + destruct (Hfound Hyes) as [batchId ->].
      destruct (contents_writesOf batchId (newBlobsOf w input)) as [-> ->]. reflexivity.
    + destruct (index_stopped BUCKET_NAME buildGoogleStorageUri calculateBlobSize
                  getUniqueAddressesFromTxs w input Hno) as [-> _].
      reflexivity.
  - intros Hyes. destruct (Hfound Hyes) as [batchId Hw].
    rewrite <- saveContents_writes, Hw.
    destruct (contents_writesOf batchId (newBlobsOf w input)) as [-> _].
    split; [reflexivity|]. apply length_writesOf.
Qed.

(** The calls of a run whose uploads have all resolved. *)
Lemma index_resolved_uploads w input batch0 rest batchId records :
  getAllPostageBatch w = Resolved (batch0 :: rest) ->
  batchID batch0 = Some batchId ->
  ReadsResolve w input ->
  outcome (Promise.all (uploads w batchId (newBlobsOf w input))) = Resolved records ->
  result (index w input) = transaction w (opsOf w input records) /\
  trace (index w input)
  = (EvGetAllPostageBatch
       :: fst (partitionBy versionedHash (blobs input) (knownLookup w))
       ++ writesOf batchId (newBlobsOf w input))
    ++ [EvTransaction (opsOf w input records)] /\
  writes (trace (index w input)) = writesOf batchId (newBlobsOf w input) /\
  transactions_of (trace (index w input)) = [EvTransaction (opsOf w input records)].
Proof.
  intros Hp Hb Hr Hall.
  rewrite (index_postage w input _ _ _ Hp Hb Hr), Hall. cbn [trace result fst snd].
  split; [reflexivity|]. split; [reflexivity|].
  destruct (lookups_partitionBy versionedHash (blobs input) (knownLookup w)) as (L1 & T1 & _).
  pose proof (writes_partitionBy versionedHash (blobs input) (knownLookup w)) as W1.
  pose proof (lookups_writesOf batchId (newBlobsOf w input)) as L2.
  pose proof (writes_writesOf BUCKET_NAME buildGoogleStorageUri batchId (newBlobsOf w input))
    as W2.
  pose proof (transactions_of_writesOf BUCKET_NAME buildGoogleStorageUri batchId
                (newBlobsOf w input)) as T2.
  rewrite <- app_comm_cons, <- app_assoc.
  destruct (filter_split_trace _ _ [EvTransaction (opsOf w input records)]
              L1 W1 T1 L2 W2 T2 eq_refl eq_refl eq_refl) as (_ & -> & ->).
  split; reflexivity.
Qed.

Lemma uploadedBlobs_records w input records :
  uploadedBlobs w input = Resolved records ->
  exists batch0 rest batchId,
    getAllPostageBatch w = Resolved (batch0 :: rest) /\
    batchID batch0 = Some batchId /\
    outcome (Promise.all (uploads w batchId (newBlobsOf w input))) = Resolved records /\
    Forall2 (fun b r => exists reference, r = recordOf b reference)
      (newBlobsOf w input) records.
Proof.
  intros Hup. destruct (postage_dec w) as [[batch0 rest batchId Hp Hb]|Hno].
  - exists batch0, rest, batchId.
    pose proof (uploadedBlobs_resolved_reads BUCKET_NAME buildGoogleStorageUri
                  calculateBlobSize getUniqueAddressesFromTxs w input records Hup
                  (postage_found w _ _ _ Hp Hb)) as Hr.
    rewrite (uploadedBlobs_postage _ _ calculateBlobSize getUniqueAddressesFromTxs
               w input _ _ _ Hp Hb Hr) in Hup.
    repeat split; try assumption.
    destruct (all_resolved _ _ Hup) as (Hnone & -> & _).
    pose proof (uploads_values _ _ calculateBlobSize w batchId _ Hnone) as Hvals.
    eapply Forall2_impl; [exact Hvals|]. intros b r (reference & _ & ->). eauto.
  - destruct (index_stopped BUCKET_NAME buildGoogleStorageUri calculateBlobSize
                getUniqueAddressesFromTxs w input Hno) as (_ & e & _ & He).
    congruence.
Qed.

(** X5. When every upload has resolved and the final transaction is
    rejected, [index] rejects with the reason of the transaction; the two
    writes of every new blob have been issued before, and the transaction is
    the last call of the run: no call undoes a write. *)
Theorem transaction_failure_keeps_writes w input records e :
  uploadedBlobs w input = Resolved records ->
  transaction w (opsOf w input records) = Rejected e ->
  result (index w input) = Rejected e /\
  length (writes (trace (index w input))) = 2 * length (newBlobsOf w input) /\
  exists before,
    trace (index w input) = before ++ [EvTransaction (opsOf w input records)] /\
    writes before = writes (trace (index w input)).
Proof.
  intros Hup Htx.
  destruct (uploadedBlobs_records w input records Hup)
    as (batch0 & rest & batchId & Hp & Hb & Hall & _).
  pose proof (uploadedBlobs_resolved_reads BUCKET_NAME buildGoogleStorageUri
                calculateBlobSize getUniqueAddressesFromTxs w input records Hup
                (postage_found w _ _ _ Hp Hb)) as Hr.
  destruct (index_resolved_uploads w input _ _ _ _ Hp Hb Hr Hall) as (Hres & Htr & Hw & _).
  split; [now rewrite Hres|]. split; [now rewrite Hw, length_writesOf|].
  eexists. split; [exact Htr|].
  rewrite Htr, writes_app. simpl. now rewrite app_nil_r.
Qed.

Lemma fold_left_sizes (records : list BlobRecord) (acc : Z) :
  fold_left (fun totalBlobSize b => (totalBlobSize + rec_size b)%Z) records acc
  = (acc + sumZ (map rec_size records))%Z.
Proof.
  revert acc. induction records as [|r rs IH]; intros acc; simpl; [lia|].
  rewrite IH. lia.
Qed.

Lemma recordOf_sizes newBlobs records :
  Forall2 (fun b r => exists reference, r = recordOf b reference) newBlobs records ->
  map rec_size records = map (fun b => calculateBlobSize (data b)) newBlobs /\
  length records = length newBlobs.
Proof.
  induction 1 as [|b r bs rs [reference ->] _ [IH1 IH2]]; simpl; [auto|].
  now rewrite IH1, IH2.
Qed.

(** X6. The blob statistics of a run that reaches the transaction: the
    number of blobs of the request, the number of new blobs, and the sum of
    [calculateBlobSize] over the data of the new blobs; known blobs add
    nothing to the last two. *)
Theorem blob_stats_count_new_blobs w input records :
  uploadedBlobs w input = Resolved records ->
  transactions_of (trace (index w input)) = [EvTransaction (opsOf w input records)] /\
  updateOverallBlobStats (opsOf w input records)
  = (lengthZ (blobs input),
     lengthZ (newBlobsOf w input),
     sumZ (map (fun b => calculateBlobSize (data b)) (newBlobsOf w input))).
Proof.
  intros Hup.
  destruct (uploadedBlobs_records w input records Hup)
    as (batch0 & rest & batchId & Hp & Hb & Hall & Hrec).
  destruct (recordOf_sizes _ _ Hrec) as [Hsizes Hlen].
  split.
  - pose proof (uploadedBlobs_resolved_reads BUCKET_NAME buildGoogleStorageUri
                  calculateBlobSize getUniqueAddressesFromTxs w input records Hup
                  (postage_found w _ _ _ Hp Hb)) as Hr.
    now destruct (index_resolved_uploads w input _ _ _ _ Hp Hb Hr Hall) as (_ & _ & _ & ->).
  - unfold prepareOps. cbn [updateOverallBlobStats].
    rewrite fold_left_sizes, Hsizes. unfold lengthZ. rewrite Hlen.
    f_equal.
Qed.

(** X7. A run that reaches the transaction links every blob of the request
    to its transaction, the known blobs as well as the new ones, in the order
    of the request, while blob rows are created for the new blobs only; and
    the rows of the transactions all carry the timestamp of the block. *)
Theorem every_blob_is_linked w input records :
  uploadedBlobs w input = Resolved records ->
  map (fun l => (bt_blobHash l, bt_txHash l, bt_index l))
      (createBlobsOnTransaction (opsOf w input records))
  = map (fun b => (versionedHash b, txHash b, index_in_tx b)) (blobs input) /\
  map rec_id (createBlobsData (opsOf w input records))
  = map versionedHash (newBlobsOf w input) /\
  map td_id (createTransactions (opsOf w input records))
  = map tx_hash (transactions input) /\
  Forall (fun t => td_timestamp t = bd_timestamp (createBlock (opsOf w input records)))
    (createTransactions (opsOf w input records)).
Proof.
  intros Hup.
  destruct (uploadedBlobs_records w input records Hup)
    as (batch0 & rest & batchId & Hp & Hb & Hall & Hrec).
  destruct (recordOf_hashes buildGoogleStorageUri calculateBlobSize _ _ Hrec) as (_ & Hids & _).
  unfold prepareOps; cbn [createBlobsOnTransaction createBlobsData createTransactions
                           createBlock bd_timestamp].
  rewrite !map_map. repeat split; try assumption; try reflexivity.
  apply List.Forall_forall. intros t Hin.
  apply List.in_map_iff in Hin as (x & <- & _). reflexivity.
Qed.

End IndexRuns.

(** ** [index]: what a record holds *)

Section IndexRecords.

Variable BUCKET_NAME : string.
Variable buildGoogleStorageUri : string -> string.
Variable calculateBlobSize : string -> Z.
Variable getUniqueAddressesFromTxs : World -> list TransactionInput -> UniqueAddresses.

Local Abbreviation index := (Indexer.index BUCKET_NAME buildGoogleStorageUri calculateBlobSize getUniqueAddressesFromTxs).
Local Abbreviation uploadedBlobs := (Indexer.uploadedBlobs BUCKET_NAME buildGoogleStorageUri calculateBlobSize getUniqueAddressesFromTxs).
Local Abbreviation uploads := (Indexer.uploads BUCKET_NAME buildGoogleStorageUri calculateBlobSize).

(** X15. The record of an uploaded blob says where its data went: its
    [gsUri] is the file name of the save of that blob, its [swarmHash] is the
    reference that the Swarm upload of that blob resolved with, its size is
    [calculateBlobSize] of the data, and its id is the versioned hash. *)
Theorem record_points_to_the_writes w input batch0 rest batchId records :
  getAllPostageBatch w = Resolved (batch0 :: rest) ->
  batchID batch0 = Some batchId ->
  uploadedBlobs w input = Resolved records ->
  Forall2 (fun b r =>
             In (EvSave BUCKET_NAME (gsUri r) (data b)) (trace (index w input)) /\
             In (EvUploadFile batchId (data b) (gsUri r) true "text/plain")
                (trace (index w input)) /\
             outcome (save w BUCKET_NAME (gsUri r) (data b)) = Resolved tt /\
             outcome (uploadFile w batchId (data b) (gsUri r)) = Resolved (swarmHash r) /\
             rec_size r = calculateBlobSize (data b) /\
             rec_id r = versionedHash b /\
             rec_versionedHash r = versionedHash b /\
             rec_commitment r = commitment b)
    (newBlobsOf w input) records.
Proof.
  intros Hp Hb Hup.
  pose proof (uploadedBlobs_resolved_reads BUCKET_NAME buildGoogleStorageUri
                calculateBlobSize getUniqueAddressesFromTxs w input records Hup
                (postage_found w _ _ _ Hp Hb)) as Hr.
  rewrite (uploadedBlobs_postage _ _ calculateBlobSize getUniqueAddressesFromTxs
             w input _ _ _ Hp Hb Hr) in Hup.
  destruct (all_resolved _ _ Hup) as (Hnone & -> & Hout).
  assert (Hw : forall b, In b (newBlobsOf w input) ->
             In (EvSave BUCKET_NAME (buildGoogleStorageUri (versionedHash b)) (data b))
                (trace (index w input)) /\
             In (EvUploadFile batchId (data b) (buildGoogleStorageUri (versionedHash b))
                   true "text/plain") (trace (index w input))).
  { intros b Hin.
    assert (Hsub : forall ev, In ev (writes (trace (index w input))) ->
                              In ev (trace (index w input))).
    { intros ev Hev. unfold writes in Hev. now apply filter_In in Hev. }
    rewrite (index_writes BUCKET_NAME buildGoogleStorageUri calculateBlobSize
               getUniqueAddressesFromTxs) in Hsub.
    destruct (uploadStage_trace BUCKET_NAME buildGoogleStorageUri calculateBlobSize
                getUniqueAddressesFromTxs w input batch0 rest batchId Hp Hb) as [Hwr _].
    rewrite Hwr in Hsub.
    split; apply Hsub; unfold Indexer.writesOf; apply in_flat_map; exists b;
      (split; [exact Hin|simpl; auto]). }
  revert Hnone Hw. clear Hup Hout.
  induction (newBlobsOf w input) as [|b bs IH]; intros Hnone Hw; [constructor|].
  change (uploads w batchId (b :: bs))
    with (snd (Indexer.uploadBlob BUCKET_NAME buildGoogleStorageUri calculateBlobSize
                 w batchId b) :: uploads w batchId bs) in *.
  cbn [rejections values] in *.
  destruct (outcome (snd (Indexer.uploadBlob BUCKET_NAME buildGoogleStorageUri
                            calculateBlobSize w batchId b))) as [r|e] eqn:E;
    [|discriminate Hnone].
  destruct (uploadBlob_resolved _ _ _ _ _ _ _ E) as (reference & Hs & Hu & ->).
  constructor.
  - cbn [gsUri swarmHash rec_size rec_id rec_versionedHash rec_commitment Indexer.recordOf].
    destruct (Hw b (or_introl eq_refl)) as [H1 H2]. repeat split; assumption.
  - apply IH; [exact Hnone|]. intros b' Hin. apply Hw. now right.
Qed.

End IndexRecords.

(** ** The slot procedures *)

Section SlotFacts.

Import Slot.
Implicit Types (table : gmap Z IndexerMetadata) (slot : Z).

Lemma updateSlot_lookup slot table :
  exists row, updateSlot slot table !! 1%Z = Some row /\ lastSlot row = slot.
Proof.
  unfold updateSlot, upsert. destruct (table !! 1%Z) as [row|] eqn:E; simpl;
    rewrite lookup_insert_eq; eauto.
Qed.

(** X8. [getSlot] reads back what [updateSlot] wrote, whatever the table
    held before; on a table with no row of id 1 it answers 0, also when other
    rows exist. *)
Theorem getSlot_updateSlot slot table :
  getSlot (updateSlot slot table) = slot /\
  (table !! 1%Z = None -> getSlot table = 0%Z).
Proof.
  split.
  - unfold getSlot, findUnique.
    destruct (updateSlot_lookup slot table) as (row & -> & Hrow). exact Hrow.
  - intros Hnone. unfold getSlot, findUnique. now rewrite Hnone.
Qed.

(** X9. [updateSlot] touches the row of id 1 only: every other row reads as
    before, the ids of the table are the old ones and 1, and a table that
    stores every row under its own id keeps doing so. *)
Theorem updateSlot_frame slot table :
  (forall id, id <> 1%Z -> updateSlot slot table !! id = table !! id) /\
  dom (updateSlot slot table) = {[ 1%Z ]} ∪ dom table /\
  (keyed table -> keyed (updateSlot slot table)).
Proof.
  unfold updateSlot, upsert.
  destruct (table !! 1%Z) as [row|] eqn:E; simpl; (split; [|split]).
  - intros id Hid. now rewrite lookup_insert_ne.
  - now rewrite dom_insert_L.
  - intros Hk k r. destruct (decide (k = 1%Z)) as [->|Hne].
    + rewrite lookup_insert_eq. intros H; inversion H; subst. simpl. exact (Hk _ _ E).
    + rewrite lookup_insert_ne by congruence. apply Hk.
  - intros id Hid. now rewrite lookup_insert_ne.
  - now rewrite dom_insert_L.
  - intros Hk k r. destruct (decide (k = 1%Z)) as [->|Hne].
    + rewrite lookup_insert_eq. intros H; inversion H; subst. reflexivity.
    + rewrite lookup_insert_ne by congruence. apply Hk.
Qed.

(** X10. Of two updates of the slot the last one wins: the first leaves no
    trace in the table; so repeating an update changes nothing. *)
Theorem updateSlot_last_wins slot1 slot2 table :
  updateSlot slot2 (updateSlot slot1 table) = updateSlot slot2 table /\
  updateSlot slot1 (updateSlot slot1 table) = updateSlot slot1 table.
Proof.
  assert (H : forall s1 s2, updateSlot s2 (updateSlot s1 table) = updateSlot s2 table).
  { intros s1 s2. unfold updateSlot, upsert.
    destruct (table !! 1%Z) as [row|] eqn:E; simpl;
      rewrite lookup_insert_eq; simpl; now rewrite insert_insert_eq. }
  split; apply H.
Qed.

End SlotFacts.

(** ** The environment schema *)

Section EnvFacts.

Import Env.

Lemma eqb_cases (s : string) :
  s = "true" \/ s = "false" \/ s = "" \/
  (String.eqb s "true" = false /\ String.eqb s "false" = false /\ String.eqb s "" = false).
Proof.
  destruct (String.eqb_spec s "true"); [auto|].
  destruct (String.eqb_spec s "false"); [auto|].
  destruct (String.eqb_spec s ""); [auto|].
  right; right; right. repeat split.
Qed.

Ltac env_cases :=
  repeat match goal with
    | |- _ /\ _ => split
    | |- _ <-> _ => split
    | |- _ -> _ => intro
    | H : _ \/ _ |- _ => destruct H
    | H : exists _, _ |- _ => destruct H
    | H : _ /\ _ |- _ => destruct H
    | H : Some _ = Some _ |- _ => inversion H; subst; clear H
    | H : ?x <> ?x |- _ => contradiction H; reflexivity
    | _ => discriminate
    | _ => congruence
    end; eauto 8.

(** X11. [TRACES_ENABLED] is true for the string [true] only; it is false
    for [false], for the empty string and for an unset variable; every other
    string, such as [TRUE] or [1], is refused. *)
Theorem traces_enabled_cases (v : option string) :
  (TRACES_ENABLED v = Valid true <-> v = Some "true") /\
  (TRACES_ENABLED v = Valid false <-> v = None \/ v = Some "false" \/ v = Some "") /\
  (TRACES_ENABLED v = Invalid <->
   exists s, v = Some s /\ s <> "true" /\ s <> "false" /\ s <> "").
Proof.
  destruct v as [s|]; [|cbn; env_cases].
  unfold TRACES_ENABLED.
  destruct (eqb_cases s) as [->|[->|[->|(H1 & H2 & H3)]]]; cbn; [env_cases..|].
  rewrite H1, H2, H3. cbn.
  apply String.eqb_neq in H1, H2, H3. env_cases.
Qed.

(** X12. Validation is skipped as soon as [CI] or [SKIP_ENV_VALIDATION] is
    set to any non-empty string: it takes place only when each of the two is
    unset or empty, so setting one of them to [false] or [0] skips it too. *)
Theorem skipValidation_cases (CI SKIP_ENV_VALIDATION : option string) :
  (skipValidation CI SKIP_ENV_VALIDATION = false <->
   (CI = None \/ CI = Some "") /\
   (SKIP_ENV_VALIDATION = None \/ SKIP_ENV_VALIDATION = Some "")) /\
  skipValidation CI (Some "false") = true /\
  skipValidation (Some "0") SKIP_ENV_VALIDATION = true.
Proof.
  assert (Ht : forall v, truthy v = false <-> v = None \/ v = Some "").
  { intros [s|]; simpl; [|tauto].
    rewrite negb_false_iff, String.eqb_eq. split; [intros ->; auto|].
    intros [H|H]; [discriminate H|now inversion H]. }
  split; [|split].
  - unfold skipValidation. rewrite orb_false_iff, !Ht. tauto.
  - unfold skipValidation. apply orb_true_r.
  - reflexivity.
Qed.

End EnvFacts.

(** ** The rollup schema *)

Section RollupFacts.

Import Rollup.

Lemma rollup_accepted (s : string) :
  existsb (String.eqb s) ROLLUPS = true <-> In s ROLLUPS.
Proof.
  rewrite existsb_exists. split.
  - intros (x & Hin & Heq). apply String.eqb_eq in Heq. now subst.
  - intros Hin. exists s. split; [exact Hin|apply String.eqb_refl].
Qed.

(** X13. [rollupSchema] accepts the six lower-case names and nothing else;
    what it yields is the name in upper case, from which lower-casing gives
    the name back, so different names yield different values; and it refuses
    its own output. *)
Theorem rollupSchema_cases (rollup : string) :
  (rollupSchema rollup = None <-> ~ In rollup ROLLUPS) /\
  (forall r, rollupSchema rollup = Some r ->
     In rollup ROLLUPS /\
     In r ["ARBITRUM"; "BASE"; "OPTIMISM"; "SCROLL"; "STARKNET"; "ZKSYNC"] /\
     toLowerCase r = rollup /\
     rollupSchema r = None).
Proof.
  unfold rollupSchema.
  destruct (existsb (String.eqb rollup) ROLLUPS) eqn:E.
  - apply rollup_accepted in E. split.
    + split; [discriminate|]. intros H. contradiction.
    + intros r Hr. inversion Hr; subst r. split; [exact E|].
      simpl in E. destruct E as [<-|[<-|[<-|[<-|[<-|[<-|[]]]]]]];
        (split; [simpl; tauto|split; reflexivity]).
  - split.
    + split; [|reflexivity]. intros _ Hin. apply rollup_accepted in Hin. congruence.
    + intros r Hr. discriminate Hr.
Qed.

End RollupFacts.

(** ** The blob transaction card *)

Section CardFacts.

Import Card.

Lemma roundDouble_safe (z : Z) :
  (Z.abs z <= MAX_SAFE_INTEGER)%Z -> roundDouble z = Finite z.
Proof.
  unfold MAX_SAFE_INTEGER, roundDouble. intros H. cbv zeta.
  destruct (Z.ltb_spec (Z.abs z) (2 ^ 53)) as [_|Hge]; [reflexivity|lia].
Qed.

Lemma sumZ_nonneg (zs : list Z) : Forall (fun z => 0 <= z)%Z zs -> (0 <= sumZ zs)%Z.
Proof. unfold sumZ. induction 1; simpl; lia. Qed.

Lemma sumZ_app (zs zs' : list Z) : sumZ (zs ++ zs') = (sumZ zs + sumZ zs')%Z.
Proof. unfold sumZ. induction zs as [|z zs IH]; simpl; lia. Qed.

Lemma sumZ_Permutation (zs zs' : list Z) : Permutation zs zs' -> sumZ zs = sumZ zs'.
Proof. unfold sumZ. induction 1; simpl; lia. Qed.

(** While the running total stays a safe integer, every addition is exact. *)
Lemma fold_left_blob_sizes (l : list BlobOnTx) (acc : Z) :
  (0 <= acc)%Z ->
  Forall (fun b => 0 <= bot_blobSize b)%Z l ->
  (acc + sumZ (map bot_blobSize l) <= MAX_SAFE_INTEGER)%Z ->
  fold_left (fun acc b => add acc (Finite (bot_blobSize b))) l (Finite acc)
  = Finite (acc + sumZ (map bot_blobSize l)).
Proof.
  revert acc. induction l as [|b l IH]; intros acc Hacc Hall Hmax.
  - simpl. f_equal. unfold sumZ. simpl. lia.
  - inversion Hall as [|? ? Hb Hl]; subst.
    assert (Hrest : (0 <= sumZ (map bot_blobSize l))%Z).
    { apply sumZ_nonneg. now apply Forall_map. }
    change (sumZ (map bot_blobSize (b :: l)))
      with (bot_blobSize b + sumZ (map bot_blobSize l))%Z in *.
    cbn [fold_left add]. rewrite roundDouble_safe by lia.
    rewrite IH by (assumption || lia). f_equal. lia.
Qed.

Lemma totalBlobSize_safe (l : list BlobOnTx) :
  Forall (fun b => 0 <= bot_blobSize b)%Z l ->
  (sumZ (map bot_blobSize l) <= MAX_SAFE_INTEGER)%Z ->
  totalBlobSize (Some l) = Finite (sumZ (map bot_blobSize l)).
Proof.
  intros Hall Hmax. unfold totalBlobSize.
  now rewrite fold_left_blob_sizes by (assumption || lia).
Qed.

(** X14. The total size shown on the card is 0 when the transaction has no
    blob list.  When no size is negative and the sizes add up to at most
    [Number.MAX_SAFE_INTEGER], no addition rounds: the total is the sum of the
    sizes, the total of a list in two parts is the sum of the totals of the
    parts, and the total does not depend on the order of the blobs. *)
Theorem totalBlobSize_sum (l l' : list BlobOnTx) :
  Forall (fun b => 0 <= bot_blobSize b)%Z (l ++ l') ->
  (sumZ (map bot_blobSize (l ++ l')) <= MAX_SAFE_INTEGER)%Z ->
  totalBlobSize None = Finite 0 /\
  totalBlobSize (Some (l ++ l')) = Finite (sumZ (map bot_blobSize (l ++ l'))) /\
  totalBlobSize (Some (l ++ l')) = add (totalBlobSize (Some l)) (totalBlobSize (Some l')) /\
  (forall k, Permutation (l ++ l') k ->
             totalBlobSize (Some k) = totalBlobSize (Some (l ++ l'))).
Proof.
  intros Hall Hmax.
  assert (Hwhole : totalBlobSize (Some (l ++ l')) = Finite (sumZ (map bot_blobSize (l ++ l'))))
    by now apply totalBlobSize_safe.
  destruct (proj1 (Forall_app _ _ _) Hall) as [Hl Hl'].
  assert (H0 : (0 <= sumZ (map bot_blobSize l))%Z)
    by (apply sumZ_nonneg; now apply Forall_map).
  assert (H0' : (0 <= sumZ (map bot_blobSize l'))%Z)
    by (apply sumZ_nonneg; now apply Forall_map).
  rewrite map_app, sumZ_app in Hmax.
  split; [reflexivity|]. split; [exact Hwhole|]. split.
  - rewrite Hwhole, !totalBlobSize_safe by (assumption || lia).
    cbn [add]. rewrite roundDouble_safe by lia. now rewrite map_app, sumZ_app.
  - intros k HP. rewrite Hwhole.
    rewrite totalBlobSize_safe.
    + f_equal. apply sumZ_Permutation, Permutation_map. now symmetry.
    + eapply Permutation_Forall; [exact HP|exact Hall].
    + rewrite <- (sumZ_Permutation _ _ (Permutation_map bot_blobSize HP)).
      rewrite map_app, sumZ_app. lia.
Qed.

End CardFacts.

(** ** The further theorems at the sample worlds *)

Section MoreSamples.

Import Fixtures MoreFixtures.

Local Abbreviation index := (Indexer.index BUCKET uri sizeOf noAddresses).
Local Abbreviation uploadedBlobs := (Indexer.uploadedBlobs BUCKET uri sizeOf noAddresses).
Local Abbreviation opsOf w input records :=
  (prepareOps input (Z.mul (block_timestamp (block input)) 1000%Z)
     (noAddresses w (transactions input)) records).
Local Abbreviation recordsAC :=
  [recordOf uri sizeOf blobA "ref:1/aa/11/aa11.txt"; recordOf uri sizeOf blobC "ref:1/cc/33/cc33.txt"].

(** X3 where the first batch has no id and the second has one. *)
Lemma only_first_batch_used_witness :
  index firstBatchUnusable (request [blobA]) = ([EvGetAllPostageBatch], Rejected NO_POSTAGE).
Proof.
  apply (proj1 (only_first_batch_used BUCKET uri sizeOf noAddresses firstBatchUnusable
                  (request [blobA]) {| batchID := None |} [ {| batchID := Some "batch-1" |} ]
                  eq_refl)).
  reflexivity.
Defined.

(** X5 where the uploads of two blobs resolve and the transaction fails. *)
Lemma transaction_failure_keeps_writes_witness :
  result (index transactionFails (request [blobA; blobC])) = Rejected DB_DOWN /\
  length (writes (trace (index transactionFails (request [blobA; blobC]))))
  = 2 * length (newBlobsOf transactionFails (request [blobA; blobC])) /\
  exists before,
    trace (index transactionFails (request [blobA; blobC]))
    = before ++ [EvTransaction (opsOf transactionFails (request [blobA; blobC]) recordsAC)] /\
    writes before = writes (trace (index transactionFails (request [blobA; blobC]))).
Proof.
  apply (transaction_failure_keeps_writes BUCKET uri sizeOf noAddresses transactionFails
           (request [blobA; blobC]) recordsAC DB_DOWN).
  - vm_compute. reflexivity.
  - reflexivity.
Defined.

(** X6 where the second of three blobs is known. *)
Lemma blob_stats_count_new_blobs_witness :
  updateOverallBlobStats
    (opsOf (withKnown {[ "0xbb22" ]} healthy) (request [blobA; blobB; blobC]) recordsAC)
  = (3%Z, 2%Z, 10%Z).
Proof.
  destruct (blob_stats_count_new_blobs BUCKET uri sizeOf noAddresses
              (withKnown {[ "0xbb22" ]} healthy) (request [blobA; blobB; blobC]) recordsAC)
    as [_ H]; [vm_compute; reflexivity|].
  rewrite H. vm_compute. reflexivity.
Defined.

(** X7 where the second of three blobs is known. *)
Lemma every_blob_is_linked_witness :
  map (fun l => (bt_blobHash l, bt_txHash l, bt_index l))
      (createBlobsOnTransaction
         (opsOf (withKnown {[ "0xbb22" ]} healthy) (request [blobA; blobB; blobC]) recordsAC))
  = [("0xaa11", "0x7a", 0%Z); ("0xbb22", "0x7a", 1%Z); ("0xcc33", "0x7b", 0%Z)] /\
  map rec_id
      (createBlobsData
         (opsOf (withKnown {[ "0xbb22" ]} healthy) (request [blobA; blobB; blobC]) recordsAC))
  = ["0xaa11"; "0xcc33"].
Proof.
  destruct (every_blob_is_linked BUCKET uri sizeOf noAddresses
              (withKnown {[ "0xbb22" ]} healthy) (request [blobA; blobB; blobC]) recordsAC)
    as (H1 & H2 & _); [vm_compute; reflexivity|].
  rewrite H1, H2. split; vm_compute; reflexivity.
Defined.

(** X15 where the second of three blobs is known. *)
Lemma record_points_to_the_writes_witness :
  Forall2 (fun b r =>
             In (EvSave BUCKET (gsUri r) (data b))
                (trace (index (withKnown {[ "0xbb22" ]} healthy) (request [blobA; blobB; blobC]))) /\
             In (EvUploadFile "batch-0" (data b) (gsUri r) true "text/plain")
                (trace (index (withKnown {[ "0xbb22" ]} healthy) (request [blobA; blobB; blobC]))) /\
             outcome (save (withKnown {[ "0xbb22" ]} healthy) BUCKET (gsUri r) (data b))
             = Resolved tt /\
             outcome (uploadFile (withKnown {[ "0xbb22" ]} healthy) "batch-0" (data b) (gsUri r))
             = Resolved (swarmHash r) /\
             rec_size r = sizeOf (data b) /\
             rec_id r = versionedHash b /\
             rec_versionedHash r = versionedHash b /\
             rec_commitment r = commitment b)
    (newBlobsOf (withKnown {[ "0xbb22" ]} healthy) (request [blobA; blobB; blobC])) recordsAC.
Proof.
  apply (record_points_to_the_writes BUCKET uri sizeOf noAddresses
           (withKnown {[ "0xbb22" ]} healthy) (request [blobA; blobB; blobC])
           {| batchID := Some "batch-0" |} [] "batch-0" recordsAC).
  - reflexivity.
  - reflexivity.
  - vm_compute. reflexivity.
Defined.

(** X14 at three blobs, the first apart from the other two. *)
Lemma totalBlobSize_sum_witness :
  Card.totalBlobSize None = Card.Finite 0 /\
  Card.totalBlobSize (Some ([cardBlob "0xaa11" 131072 0] ++ skipn 1 cardBlobs))
  = Card.Finite
      (sumZ (map Card.bot_blobSize ([cardBlob "0xaa11" 131072 0] ++ skipn 1 cardBlobs))) /\
  Card.totalBlobSize (Some ([cardBlob "0xaa11" 131072 0] ++ skipn 1 cardBlobs))
  = Card.add (Card.totalBlobSize (Some [cardBlob "0xaa11" 131072 0]))
      (Card.totalBlobSize (Some (skipn 1 cardBlobs))) /\
  (forall k, Permutation ([cardBlob "0xaa11" 131072 0] ++ skipn 1 cardBlobs) k ->
             Card.totalBlobSize (Some k)
             = Card.totalBlobSize (Some ([cardBlob "0xaa11" 131072 0] ++ skipn 1 cardBlobs))).
Proof.
  apply (totalBlobSize_sum [cardBlob "0xaa11" 131072 0] (skipn 1 cardBlobs)).
  - repeat (constructor; [simpl; lia|]). constructor.
  - vm_compute. discriminate.
Defined.

(** The total of the three sample blobs. *)
Lemma totalBlobSize_cardBlobs : Card.totalBlobSize (Some cardBlobs) = Card.Finite 266240.
Proof. reflexivity. Qed.

(** Past the safe integers the additions round, and the order of the blobs
    shows in the total: [2^53 + 1] rounds to [2^53], twice, where
    [1 + 1 + 2^53] is exact. *)
Lemma totalBlobSize_rounds :
  Permutation hugeFirst hugeLast /\
  Card.totalBlobSize (Some hugeFirst) = Card.Finite (2 ^ 53) /\
  Card.totalBlobSize (Some hugeLast) = Card.Finite (2 ^ 53 + 2).
Proof.
  split; [|split; vm_compute; reflexivity].
  unfold hugeFirst, hugeLast.
  eapply perm_trans; [apply perm_swap|]. apply perm_skip. apply perm_swap.
Qed.

End MoreSamples.
